(** * Universal Orlando wait-time tracker: collector and store

    A shallow embedding of [src/config.py], [src/database.py],
    [src/collector.py] and the data handling of [dashboard/app.py], followed
    by the properties of the collection pipeline: retry and backoff of the
    fetch, flattening of the API response, idempotent upserts, derived
    temporal fields, write ordering and error propagation. *)

From Stdlib Require Import ZArith Lia List Bool.
From stdpp Require Import gmap strings list fin_maps.
Import ListNotations.
Open Scope string_scope.
Open Scope Z_scope.
Open Scope list_scope.

Set Warnings "-register-all".

(** ** Python values

    The values that flow through the collector are the ones [response.json()]
    produces: [None], booleans, integers, strings, lists and dictionaries
    with string keys.  Non-integral JSON numbers never matter to the code
    (every value is copied through untouched) and are left out.  A string
    is a sequence of Unicode scalar values: a [str] holding a lone
    surrogate, which [json.loads] builds from an escape and which [sqlite3]
    refuses to bind with a [UnicodeEncodeError], is left out as well. *)

Inductive json : Type :=
  | JNull
  | JBool (b : bool)
  | JInt (z : Z)
  | JStr (s : string)
  | JArr (l : list json)
  | JObj (m : gmap string json).

(** The SQL constraint behind an [sqlite3.IntegrityError]. *)
Inductive sql_constraint : Type :=
  | NotNull
  | ForeignKey
  | DatatypeMismatch.

(** The exceptions the modelled code can raise. *)
Inductive exn : Type :=
  | TypeError                              (* iterating a non-iterable *)
  | AttributeError                         (* [.get] on a non-dict *)
  | OverflowError                          (* integer beyond SQLite's 64 bits *)
  | ProgrammingError                       (* parameter of unsupported type *)
  | OperationalError                       (* no such table *)
  | IntegrityError (c : sql_constraint)
  | SystemExit (code : Z).

Inductive result (A : Type) : Type :=
  | Ok (a : A)
  | Raise (e : exn).
Arguments Ok {A} a.
Arguments Raise {A} e.

Definition rbind {A B} (r : result A) (k : A -> result B) : result B :=
  match r with
  | Ok a => k a
  | Raise e => Raise e
  end.

Declare Scope result_scope.
Delimit Scope result_scope with res.
Notation "x <- e ;; k" := (rbind e (fun x => k))
  (at level 100, e at next level, right associativity) : result_scope.

(** [for x in xs: body] with the loop-carried state [s]; an exception in the
    body leaves the loop. *)
Fixpoint for_in {A S} (xs : list A) (body : A -> S -> result S) (s : S)
  : result S :=
  match xs with
  | [] => Ok s
  | x :: xs' => rbind (body x s) (for_in xs' body)
  end.

(** [v is None] *)
Definition is_none (v : json) : bool :=
  match v with
  | JNull => true
  | _ => false
  end.

(** [v.get(key, dflt)]: only dictionaries have [get]. *)
Definition py_get (v : json) (key : string) (dflt : json) : result json :=
  match v with
  | JObj m => Ok (default dflt (m !! key))
  | _ => Raise AttributeError
  end.

(** The items [for x in v] runs over: the elements of a list, the
    one-character strings of a string, the keys of a dictionary. *)
Definition py_iter (v : json) : result (list json) :=
  match v with
  | JArr l => Ok l
  | JStr s => Ok (map (fun c => JStr (String c EmptyString)) (String.list_ascii_of_string s))
  | JObj m => Ok (map (fun kv => JStr (fst kv)) (map_to_list m))
  | JNull | JBool _ | JInt _ => Raise TypeError
  end.

(** ** config.py *)

Definition PARKS : list (Z * string) :=
  [ (64, "Islands of Adventure");
    (65, "Universal Studios Florida");
    (334, "Epic Universe") ].

Definition MAX_RETRIES : nat := 3.

(** ** collector.py: [parse_rides] *)

(** The dictionary [parse_rides] appends for every ride; its eight keys are
    fixed, so it is a record here. *)
Record ride_record : Type := {
  r_id : json;
  r_name : json;
  r_is_open : json;
  r_wait_time : json;
  r_last_updated : json;
  r_land_id : json;
  r_land_name : json;
  r_park_id : Z
}.

(** The dictionary literal of both loops, with the land columns as given. *)
Definition ride_entry (ride land_id land_name : json) (park_id : Z)
  : result ride_record :=
  (id <- py_get ride "id" JNull ;;
   name <- py_get ride "name" JNull ;;
   is_open <- py_get ride "is_open" (JBool false) ;;
   wait_time <- py_get ride "wait_time" JNull ;;
   last_updated <- py_get ride "last_updated" JNull ;;
   Ok {| r_id := id; r_name := name; r_is_open := is_open;
         r_wait_time := wait_time; r_last_updated := last_updated;
         r_land_id := land_id; r_land_name := land_name;
         r_park_id := park_id |})%res.

(** Body of the outer loop: one land and its nested rides. *)
Definition parse_land (park_id : Z) (land : json) (rides : list ride_record)
  : result (list ride_record) :=
  (land_id <- py_get land "id" JNull ;;
   land_name <- py_get land "name" JNull ;;
   nested <- py_get land "rides" (JArr []) ;;
   items <- py_iter nested ;;
   for_in items
     (fun ride rides =>
        entry <- ride_entry ride land_id land_name park_id ;;
        Ok (rides ++ [entry]))
     rides)%res.

Definition parse_rides (api_response : json) (park_id : Z)
  : result (list ride_record) :=
  (let rides := [] in
   lands <- py_get api_response "lands" (JArr []) ;;
   land_items <- py_iter lands ;;
   rides <- for_in land_items (parse_land park_id) rides ;;
   standalone <- py_get api_response "rides" (JArr []) ;;
   ride_items <- py_iter standalone ;;
   for_in ride_items
     (fun ride rides =>
        entry <- ride_entry ride JNull JNull park_id ;;
        Ok (rides ++ [entry]))
     rides)%res.

(** ** datetime

    [collected_at] is a [datetime.datetime] of the standard library; the
    weekday follows its proleptic Gregorian ordinal ([toordinal]). *)

Record datetime : Type := {
  dt_year : Z;
  dt_month : Z;
  dt_day : Z;
  dt_hour : Z;
  dt_minute : Z;
  dt_second : Z;
  dt_microsecond : Z
}.

Definition is_leap (year : Z) : bool :=
  (year mod 4 =? 0) && (negb (year mod 100 =? 0) || (year mod 400 =? 0)).

Definition days_before_year (year : Z) : Z :=
  let y := year - 1 in
  y * 365 + y / 4 - y / 100 + y / 400.

Definition DAYS_IN_MONTH : list Z :=
  [-1; 31; 28; 31; 30; 31; 30; 31; 31; 30; 31; 30; 31].

Definition DAYS_BEFORE_MONTH : list Z :=
  [-1; 0; 31; 59; 90; 120; 151; 181; 212; 243; 273; 304; 334].

Definition days_in_month (year month : Z) : Z :=
  if (month =? 2) && is_leap year then 29
  else nth (Z.to_nat month) DAYS_IN_MONTH 0.

Definition days_before_month (year month : Z) : Z :=
  nth (Z.to_nat month) DAYS_BEFORE_MONTH 0
  + (if (2 <? month) && is_leap year then 1 else 0).

Definition toordinal (d : datetime) : Z :=
  days_before_year (dt_year d) + days_before_month (dt_year d) (dt_month d)
  + dt_day d.

(** [d.weekday()]: Monday is 0, Sunday is 6. *)
Definition weekday (d : datetime) : Z := (toordinal d + 6) mod 7.

(** The ranges the [datetime] constructor enforces. *)
Definition valid_datetime (d : datetime) : Prop :=
  1 <= dt_year d <= 9999 /\
  1 <= dt_month d <= 12 /\
  1 <= dt_day d <= days_in_month (dt_year d) (dt_month d) /\
  0 <= dt_hour d <= 23 /\
  0 <= dt_minute d <= 59 /\
  0 <= dt_second d <= 59 /\
  0 <= dt_microsecond d <= 999999.

(** ** database.py

    The SQLite store, as far as the statements of [database.py] exercise it:
    parameter binding, [NOT NULL], [INTEGER PRIMARY KEY] (the rowid) and the
    foreign keys that [PRAGMA foreign_keys = ON] enforces on every
    connection.  Column affinity is not modelled: a value is stored as it was
    bound, and a text is never read as the integer it may spell. *)

Inductive sqlval : Type :=
  | SqlNull
  | SqlInt (z : Z)
  | SqlText (s : string).

Definition is_null (v : sqlval) : bool :=
  match v with
  | SqlNull => true
  | _ => false
  end.

(** How the [sqlite3] module binds a Python value to a [?]. *)
Definition bind_param (v : json) : result sqlval :=
  match v with
  | JNull => Ok SqlNull
  | JBool b => Ok (SqlInt (if b then 1 else 0))
  | JInt z =>
      if (- 2 ^ 63 <=? z) && (z <? 2 ^ 63) then Ok (SqlInt z)
      else Raise OverflowError
  | JStr s => Ok (SqlText s)
  | JArr _ | JObj _ => Raise ProgrammingError
  end.

Record park_row : Type := {
  parks_id : Z;
  parks_name : sqlval
}.

Record land_row : Type := {
  lands_id : Z;
  lands_park_id : sqlval;
  lands_name : sqlval
}.

Record ride_row : Type := {
  rides_id : Z;
  rides_land_id : sqlval;
  rides_park_id : sqlval;
  rides_name : sqlval
}.

(** [collected_at] is kept as the datetime its stored text spells; the
    derived columns are kept at their Python types ([is_weekend] is stored
    as 0 or 1). *)
Record wait_time_row : Type := {
  wt_id : Z;
  wt_ride_id : sqlval;
  wt_wait_time : sqlval;
  wt_is_open : sqlval;
  wt_collected_at : datetime;
  wt_api_last_updated : sqlval;
  wt_day_of_week : Z;
  wt_hour : Z;
  wt_is_weekend : bool
}.

(** The database file: whether [init_database] has created the tables, and
    the rows of each table in insertion order. *)
Record database : Type := {
  schema : bool;
  parks : list park_row;
  lands : list land_row;
  rides : list ride_row;
  wait_times : list wait_time_row
}.

Definition empty_database : database :=
  {| schema := false; parks := []; lands := []; rides := [];
     wait_times := [] |}.

Definition mem (z : Z) (ids : list Z) : bool := existsb (Z.eqb z) ids.

(** The rowid SQLite picks when none is given: 1 in an empty table, one more
    than the largest otherwise. *)
Definition next_rowid (ids : list Z) : Z :=
  match ids with
  | [] => 1
  | z :: zs => fold_right Z.max z zs + 1
  end.

(** The value of an [INTEGER PRIMARY KEY] column. *)
Definition rowid_of (v : sqlval) (ids : list Z) : result Z :=
  match v with
  | SqlNull => Ok (next_rowid ids)
  | SqlInt z => Ok z
  | SqlText _ => Raise (IntegrityError DatatypeMismatch)
  end.

(** A foreign-key column is satisfied by NULL or by the id of a parent row. *)
Definition references (v : sqlval) (ids : list Z) : bool :=
  match v with
  | SqlNull => true
  | SqlInt z => mem z ids
  | SqlText _ => false
  end.

(** [CREATE TABLE IF NOT EXISTS ...]: existing rows stay. *)
Definition init_database (db : database) : result database :=
  Ok {| schema := true; parks := parks db; lands := lands db;
        rides := rides db; wait_times := wait_times db |}.

(** [INSERT OR IGNORE INTO parks (id, name) VALUES (?, ?)].  A [NOT NULL] or
    primary-key conflict skips the row without an error. *)
Definition insert_park (park_id name : json) (db : database)
  : result database :=
  if schema db then
    (id <- bind_param park_id ;;
     name <- bind_param name ;;
     rowid <- rowid_of id (map parks_id (parks db)) ;;
     if is_null name || mem rowid (map parks_id (parks db)) then Ok db
     else
       Ok {| schema := schema db;
             parks := parks db ++ [{| parks_id := rowid; parks_name := name |}];
             lands := lands db; rides := rides db;
             wait_times := wait_times db |})%res
  else Raise OperationalError.

(** [INSERT OR IGNORE INTO lands (id, park_id, name) VALUES (?, ?, ?)].
    [OR IGNORE] does not cover foreign keys: a row that passes the other
    constraints and names no park fails the statement. *)
Definition insert_land (land_id park_id name : json) (db : database)
  : result database :=
  if schema db then
    (id <- bind_param land_id ;;
     park_id <- bind_param park_id ;;
     name <- bind_param name ;;
     rowid <- rowid_of id (map lands_id (lands db)) ;;
     if is_null park_id || is_null name
        || mem rowid (map lands_id (lands db)) then Ok db
     else if references park_id (map parks_id (parks db)) then
       Ok {| schema := schema db; parks := parks db;
             lands := lands db ++ [{| lands_id := rowid;
                                      lands_park_id := park_id;
                                      lands_name := name |}];
             rides := rides db; wait_times := wait_times db |}
     else Raise (IntegrityError ForeignKey))%res
  else Raise OperationalError.

(** [INSERT OR IGNORE INTO rides (id, land_id, park_id, name)
     VALUES (?, ?, ?, ?)]. *)
Definition insert_ride (ride_id park_id name land_id : json) (db : database)
  : result database :=
  if schema db then
    (id <- bind_param ride_id ;;
     land_id <- bind_param land_id ;;
     park_id <- bind_param park_id ;;
     name <- bind_param name ;;
     rowid <- rowid_of id (map rides_id (rides db)) ;;
     if is_null park_id || is_null name
        || mem rowid (map rides_id (rides db)) then Ok db
     else if references land_id (map lands_id (lands db))
             && references park_id (map parks_id (parks db)) then
       Ok {| schema := schema db; parks := parks db; lands := lands db;
             rides := rides db ++ [{| rides_id := rowid;
                                      rides_land_id := land_id;
                                      rides_park_id := park_id;
                                      rides_name := name |}];
             wait_times := wait_times db |}
     else Raise (IntegrityError ForeignKey))%res
  else Raise OperationalError.

(** [INSERT INTO wait_times (...) VALUES (?, ?, ?, ?, ?, ?, ?, ?)], after the
    three derived fields have been computed from [collected_at]. *)
Definition insert_wait_time (ride_id wait_time is_open : json)
    (collected_at : datetime) (api_last_updated : json) (db : database)
  : result database :=
  let day_of_week := weekday collected_at in
  let hour := dt_hour collected_at in
  let is_weekend := 5 <=? day_of_week in
  if schema db then
    (ride_id <- bind_param ride_id ;;
     wait_time <- bind_param wait_time ;;
     is_open <- bind_param is_open ;;
     api_last_updated <- bind_param api_last_updated ;;
     if is_null ride_id || is_null is_open then
       Raise (IntegrityError NotNull)
     else if references ride_id (map rides_id (rides db)) then
       Ok {| schema := schema db; parks := parks db; lands := lands db;
             rides := rides db;
             wait_times :=
               wait_times db ++
               [{| wt_id := next_rowid (map wt_id (wait_times db));
                   wt_ride_id := ride_id;
                   wt_wait_time := wait_time;
                   wt_is_open := is_open;
                   wt_collected_at := collected_at;
                   wt_api_last_updated := api_last_updated;
                   wt_day_of_week := day_of_week;
                   wt_hour := hour;
                   wt_is_weekend := is_weekend |}] |}
     else Raise (IntegrityError ForeignKey))%res
  else Raise OperationalError.

(** [SELECT COUNT( * ) FROM rides] *)
Definition get_ride_count (db : database) : result Z :=
  if schema db then Ok (Z.of_nat (length (rides db)))
  else Raise OperationalError.

(** [SELECT COUNT( * ) FROM wait_times] *)
Definition get_wait_time_count (db : database) : result Z :=
  if schema db then Ok (Z.of_nat (length (wait_times db)))
  else Raise OperationalError.

(** ** collector.py: effects

    A run of the collector acts on the database and on the outside world.
    Both are kept in [world]: the database, and the chronological trace of
    HTTP requests, sleeps and store calls.  Logging is left out. *)

Inductive http_outcome : Type :=
  | Timeout                    (* [requests.exceptions.Timeout] *)
  | HTTPError                  (* [raise_for_status] on a 4xx/5xx answer *)
  | RequestException           (* any other failure of the request *)
  | Response (body : json).    (* a 2xx answer and its decoded body *)

Inductive store_call : Type :=
  | InitDatabase
  | InsertPark (park_id name : json)
  | InsertLand (land_id park_id name : json)
  | InsertRide (ride_id park_id name land_id : json)
  | InsertWaitTime (ride_id wait_time is_open : json)
      (collected_at : datetime) (api_last_updated : json)
  | GetRideCount
  | GetWaitTimeCount.

Inductive event : Type :=
  | Request (park_id : Z)
  | Sleep (seconds : Z)
  | Store (call : store_call)
  | Print (ride_count wait_time_count : Z).

Record world : Type := {
  w_db : database;
  w_trace : list event
}.

(** Computations of the collector: they change the world and return a value
    or raise.  What was done before an exception stays done (every store
    call commits on its own connection). *)
Definition M (A : Type) : Type := world -> world * result A.

Definition ret {A} (a : A) : M A := fun w => (w, Ok a).

Definition raise {A} (e : exn) : M A := fun w => (w, Raise e).

Definition bind {A B} (m : M A) (k : A -> M B) : M B :=
  fun w =>
    match m w with
    | (w', Ok a) => k a w'
    | (w', Raise e) => (w', Raise e)
    end.

Declare Scope collector_scope.
Delimit Scope collector_scope with col.
Notation "x <- e ;; k" := (bind e (fun x => k))
  (at level 100, e at next level, right associativity) : collector_scope.
Notation "e ;; k" := (bind e (fun _ => k))
  (at level 100, right associativity) : collector_scope.

Definition lift {A} (r : result A) : M A := fun w => (w, r).

Definition emit (ev : event) : M unit :=
  fun w => ({| w_db := w_db w; w_trace := w_trace w ++ [ev] |}, Ok tt).

(** A call of a writing function of [database.py]. *)
Definition store (call : store_call) (op : database -> result database)
  : M unit :=
  fun w =>
    let trace := w_trace w ++ [Store call] in
    match op (w_db w) with
    | Ok db => ({| w_db := db; w_trace := trace |}, Ok tt)
    | Raise e => ({| w_db := w_db w; w_trace := trace |}, Raise e)
    end.

(** A call of a counting function of [database.py]. *)
Definition query (call : store_call) (op : database -> result Z) : M Z :=
  fun w =>
    ({| w_db := w_db w; w_trace := w_trace w ++ [Store call] |}, op (w_db w)).

(** [for x in xs: body] in the collector. *)
Fixpoint for_each {A S} (xs : list A) (body : A -> S -> M S) (s : S) : M S :=
  match xs with
  | [] => ret s
  | x :: xs' => bind (body x s) (for_each xs' body)
  end.

Definition exec_insert_park (park_id name : json) : M unit :=
  store (InsertPark park_id name) (insert_park park_id name).

Definition exec_insert_land (land_id park_id name : json) : M unit :=
  store (InsertLand land_id park_id name) (insert_land land_id park_id name).

Definition exec_insert_ride (ride_id park_id name land_id : json) : M unit :=
  store (InsertRide ride_id park_id name land_id)
    (insert_ride ride_id park_id name land_id).

Definition exec_insert_wait_time (ride_id wait_time is_open : json)
    (collected_at : datetime) (api_last_updated : json) : M unit :=
  store (InsertWaitTime ride_id wait_time is_open collected_at api_last_updated)
    (insert_wait_time ride_id wait_time is_open collected_at api_last_updated).

(** The exit status of the process for the way [main] ends: 0 on return,
    the code of [sys.exit], 1 for any other uncaught exception. *)
Definition exit_status {A} (r : result A) : Z :=
  match r with
  | Ok _ => 0
  | Raise (SystemExit code) => code
  | Raise _ => 1
  end.

Section Collector.

(** What the [attempt]-th request for a park's URL meets (attempts are
    numbered from 0 within one [fetch_park_data]). *)
Variable net : Z -> nat -> http_outcome.

(** The value of [datetime.now()] at the start of the run. *)
Variable now : datetime.

(** The loop of [fetch_park_data] over the remaining attempt indices; the
    code after the loop returns [None]. *)
Fixpoint fetch_attempts (park_id : Z) (attempts : list nat) : M json :=
  match attempts with
  | [] => ret JNull
  | attempt :: rest =>
      (emit (Request park_id) ;;
       match net park_id attempt with
       | Response body => ret body
       | Timeout | HTTPError | RequestException =>
           (if (attempt <? MAX_RETRIES - 1)%nat
            then emit (Sleep (2 ^ Z.of_nat attempt))
            else ret tt) ;;
           fetch_attempts park_id rest
       end)%col
  end.

Definition fetch_park_data (park_id : Z) : M json :=
  fetch_attempts park_id (seq 0 MAX_RETRIES).

(** Body of the loop of [collect_park]. *)
Definition collect_ride (park_id : Z) (collected_at : datetime)
    (ride : ride_record) (records_inserted : Z) : M Z :=
  ((if is_none (r_land_id ride) then ret tt
    else exec_insert_land (r_land_id ride) (JInt park_id) (r_land_name ride)) ;;
   exec_insert_ride (r_id ride) (JInt park_id) (r_name ride) (r_land_id ride) ;;
   exec_insert_wait_time (r_id ride) (r_wait_time ride) (r_is_open ride)
     collected_at (r_last_updated ride) ;;
   ret (records_inserted + 1))%col.

Definition collect_park (park_id : Z) (park_name : string)
    (collected_at : datetime) : M Z :=
  (data <- fetch_park_data park_id ;;
   if is_none data then ret (-1)
   else
     exec_insert_park (JInt park_id) (JStr park_name) ;;
     rides <- lift (parse_rides data park_id) ;;
     for_each rides (collect_ride park_id collected_at) 0)%col.

(** The loop of [collect_all_parks] over the configured parks. *)
Definition collect_parks (parks : list (Z * string)) (collected_at : datetime)
    (results : gmap string Z) : M (gmap string Z) :=
  for_each parks
    (fun park results =>
       (records <- collect_park (fst park) (snd park) collected_at ;;
        ret (<[snd park := records]> results))%col)
    results.

Definition collect_all_parks : M (gmap string Z) :=
  (let collected_at := now in
   store InitDatabase init_database ;;
   collect_parks PARKS collected_at ∅)%col.

Definition check_status : M unit :=
  (store InitDatabase init_database ;;
   ride_count <- query GetRideCount get_ride_count ;;
   wait_time_count <- query GetWaitTimeCount get_wait_time_count ;;
   emit (Print ride_count wait_time_count))%col.

(** [any(r < 0 for r in results.values())] *)
Definition any_negative (results : gmap string Z) : bool :=
  existsb (fun r => r <? 0) (map snd (map_to_list results)).

(** [main], with the parsed [--check] flag as its argument. *)
Definition main (check : bool) : M unit :=
  (if check then check_status
   else
     results <- collect_all_parks ;;
     if any_negative results then raise (SystemExit 1) else ret tt)%col.

End Collector.

(** ** collector.py: the summary of a run

    The two numbers [collect_all_parks] computes from its result map for the
    log. *)

(** [sum(r for r in results.values() if r >= 0)] *)
Definition total_records (results : gmap string Z) : Z :=
  fold_right Z.add 0
    (List.filter (fun r => 0 <=? r) (map snd (map_to_list results))).

(** [sum(1 for r in results.values() if r < 0)] *)
Definition failed_parks (results : gmap string Z) : Z :=
  fold_right Z.add 0
    (map (fun _ => 1)
       (List.filter (fun r => r <? 0) (map snd (map_to_list results)))).

(** ** dashboard/app.py

    The dashboard reads the tables the collector writes.  Its data frames
    are lists of rows here; a mask selection [df[mask]] keeps the rows whose
    mask holds, in order. *)

Definition DAY_NAMES : gmap Z string :=
  list_to_map
    [ (0, "Monday"); (1, "Tuesday"); (2, "Wednesday"); (3, "Thursday");
      (4, "Friday"); (5, "Saturday"); (6, "Sunday") ].

(** The [day_name] column [load_data] adds: [day_of_week.map(DAY_NAMES)],
    which has no value for a key the dictionary lacks. *)
Definition day_name (day_of_week : Z) : option string :=
  DAY_NAMES !! day_of_week.

(** A [datetime.date]; dates compare as (year, month, day). *)
Record date : Type := {
  d_year : Z;
  d_month : Z;
  d_day : Z
}.

Definition date_leb (a b : date) : bool :=
  (d_year a <? d_year b)
  || ((d_year a =? d_year b)
      && ((d_month a <? d_month b)
          || ((d_month a =? d_month b) && (d_day a <=? d_day b)))).

(** The dictionary [render_sidebar] returns. *)
Record filters : Type := {
  f_parks : list string;
  f_start_date : date;
  f_end_date : date;
  f_hour_range : Z * Z;
  f_ride : option string;
  f_day_filter : string
}.

(** Truth value of [filters['ride']]: [None] and the empty string are
    false. *)
Definition ride_selected (ride : option string) : option string :=
  match ride with
  | Some EmptyString | None => None
  | Some name => Some name
  end.

Section ApplyFilters.

(** The rows of the data frame and the columns [apply_filters] looks at;
    [wait_time] has no value where the stored column is NULL. *)
Variable row : Type.
Variable park_name : row -> string.
Variable row_date : row -> date.
Variable hour : row -> Z.
Variable ride_name : row -> string.
Variable is_weekend : row -> Z.
Variable is_open : row -> Z.
Variable wait_time : row -> option Z.

Definition apply_filters (df : list row) (f : filters) : list row :=
  let filtered := df in
  let filtered :=
    match f_parks f with
    | [] => filtered
    | _ :: _ =>
        List.filter
          (fun r => existsb (String.eqb (park_name r)) (f_parks f)) filtered
    end in
  let filtered :=
    List.filter
      (fun r => date_leb (f_start_date f) (row_date r)
                && date_leb (row_date r) (f_end_date f)) filtered in
  let filtered :=
    List.filter
      (fun r => (fst (f_hour_range f) <=? hour r)
                && (hour r <=? snd (f_hour_range f))) filtered in
  let filtered :=
    match ride_selected (f_ride f) with
    | Some ride => List.filter (fun r => String.eqb (ride_name r) ride) filtered
    | None => filtered
    end in
  let filtered :=
    if String.eqb (f_day_filter f) "Weekdays Only"
    then List.filter (fun r => is_weekend r =? 0) filtered
    else if String.eqb (f_day_filter f) "Weekends Only"
    then List.filter (fun r => is_weekend r =? 1) filtered
    else filtered in
  List.filter
    (fun r => (is_open r =? 1)
              && match wait_time r with Some _ => true | None => false end)
    filtered.

(** The rows [apply_filters] keeps: those of a selected park (any park when
    none is selected), within the date and hour ranges, of the selected ride
    (any ride when none is selected), of the selected kind of day, open and
    with a wait time. *)
Definition kept (f : filters) (r : row) : bool :=
  match f_parks f with
  | [] => true
  | _ :: _ => existsb (String.eqb (park_name r)) (f_parks f)
  end
  && (date_leb (f_start_date f) (row_date r)
      && date_leb (row_date r) (f_end_date f))
  && ((fst (f_hour_range f) <=? hour r) && (hour r <=? snd (f_hour_range f)))
  && match ride_selected (f_ride f) with
     | Some ride => String.eqb (ride_name r) ride
     | None => true
     end
  && (if String.eqb (f_day_filter f) "Weekdays Only" then is_weekend r =? 0
      else if String.eqb (f_day_filter f) "Weekends Only"
      then is_weekend r =? 1
      else true)
  && ((is_open r =? 1)
      && match wait_time r with Some _ => true | None => false end).

End ApplyFilters.

Definition with_day_filter (f : filters) (day_filter : string) : filters :=
  {| f_parks := f_parks f; f_start_date := f_start_date f;
     f_end_date := f_end_date f; f_hour_range := f_hour_range f;
     f_ride := f_ride f; f_day_filter := day_filter |}.

Definition with_parks (f : filters) (parks : list string) : filters :=
  {| f_parks := parks; f_start_date := f_start_date f;
     f_end_date := f_end_date f; f_hour_range := f_hour_range f;
     f_ride := f_ride f; f_day_filter := f_day_filter f |}.

Definition with_ride (f : filters) (ride : option string) : filters :=
  {| f_parks := f_parks f; f_start_date := f_start_date f;
     f_end_date := f_end_date f; f_hour_range := f_hour_range f;
     f_ride := ride; f_day_filter := f_day_filter f |}.

(** A row of the joined reading table, with the columns the filters use. *)
Record reading_view : Type := {
  v_park_name : string;
  v_date : date;
  v_hour : Z;
  v_ride_name : string;
  v_is_weekend : Z;
  v_is_open : Z;
  v_wait_time : option Z
}.

Definition apply_filters_view : list reading_view -> filters -> list reading_view :=
  apply_filters reading_view v_park_name v_date v_hour v_ride_name
    v_is_weekend v_is_open v_wait_time.

Definition sample_views : list reading_view :=
  [ {| v_park_name := "Islands of Adventure";
       v_date := {| d_year := 2025; d_month := 12; d_day := 27 |};
       v_hour := 12; v_ride_name := "VelociCoaster"; v_is_weekend := 1;
       v_is_open := 1; v_wait_time := Some 90 |};
    {| v_park_name := "Islands of Adventure";
       v_date := {| d_year := 2025; d_month := 12; d_day := 29 |};
       v_hour := 14; v_ride_name := "VelociCoaster"; v_is_weekend := 0;
       v_is_open := 0; v_wait_time := None |};
    {| v_park_name := "Epic Universe";
       v_date := {| d_year := 2025; d_month := 12; d_day := 29 |};
       v_hour := 14; v_ride_name := "Stardust Racers"; v_is_weekend := 0;
       v_is_open := 1; v_wait_time := Some 45 |} ].

Definition sample_filters : filters :=
  {| f_parks := [];
     f_start_date := {| d_year := 2025; d_month := 12; d_day := 1 |};
     f_end_date := {| d_year := 2025; d_month := 12; d_day := 31 |};
     f_hour_range := (8, 22);
     f_ride := None;
     f_day_filter := "All Days" |}.

(** The same filters with the hour slider's bounds the wrong way round. *)
Definition inverted_hours : filters :=
  {| f_parks := f_parks sample_filters;
     f_start_date := f_start_date sample_filters;
     f_end_date := f_end_date sample_filters;
     f_hour_range := (22, 8);
     f_ride := f_ride sample_filters;
     f_day_filter := f_day_filter sample_filters |}.


(** [load_data]'s query for the readings,

      SELECT wt.*, r.name as ride_name, p.name as park_name,
             l.name as land_name
      FROM wait_times wt
      JOIN rides r ON wt.ride_id = r.id
      JOIN parks p ON r.park_id = p.id
      LEFT JOIN lands l ON r.land_id = l.id

    over created tables.  [a = b] holds for no NULL.  SQL leaves the order
    of the joined rows open; the rows are listed reading by reading here,
    and the statements about them do not depend on the order. *)
Definition key_matches (v : sqlval) (id : Z) : bool :=
  match v with
  | SqlInt z => z =? id
  | _ => false
  end.

Record joined_row : Type := {
  j_reading : wait_time_row;
  j_ride_name : sqlval;
  j_park_name : sqlval;
  j_land_name : sqlval
}.

Definition wait_times_query (db : database) : list joined_row :=
  flat_map
    (fun wt =>
       flat_map
         (fun r =>
            flat_map
              (fun p =>
                 match List.filter
                         (fun l => key_matches (rides_land_id r) (lands_id l))
                         (lands db) with
                 | [] =>
                     [ {| j_reading := wt; j_ride_name := rides_name r;
                          j_park_name := parks_name p;
                          j_land_name := SqlNull |} ]
                 | l :: ls =>
                     map (fun l =>
                            {| j_reading := wt; j_ride_name := rides_name r;
                               j_park_name := parks_name p;
                               j_land_name := lands_name l |})
                         (l :: ls)
                 end)
              (List.filter
                 (fun p => key_matches (rides_park_id r) (parks_id p))
                 (parks db)))
         (List.filter
            (fun r => key_matches (wt_ride_id wt) (rides_id r))
            (rides db)))
    (wait_times db).

(** ** Reference definitions

    What the statements below compare the code with. *)

(** The value under [key] of a dictionary, [dflt] when the key is absent. *)
Definition field (v : json) (key : string) (dflt : json) : json :=
  match v with
  | JObj m => default dflt (m !! key)
  | _ => dflt
  end.

Definition elements (v : json) : list json :=
  match v with
  | JArr l => l
  | _ => []
  end.

(** The array under [key], empty when the key is absent. *)
Definition array_at (v : json) (key : string) : list json :=
  elements (field v key (JArr [])).

(** The record a ride dictionary is flattened to. *)
Definition record_of (park_id : Z) (land_id land_name ride : json)
  : ride_record :=
  {| r_id := field ride "id" JNull;
     r_name := field ride "name" JNull;
     r_is_open := field ride "is_open" (JBool false);
     r_wait_time := field ride "wait_time" JNull;
     r_last_updated := field ride "last_updated" JNull;
     r_land_id := land_id;
     r_land_name := land_name;
     r_park_id := park_id |}.

(** The records of the rides nested in one land. *)
Definition land_records (park_id : Z) (land : json) : list ride_record :=
  map (record_of park_id (field land "id" JNull) (field land "name" JNull))
    (array_at land "rides").

(** The records of the top-level rides. *)
Definition standalone_records (park_id : Z) (resp : json) : list ride_record :=
  map (record_of park_id JNull JNull) (array_at resp "rides").

(** Land-nested rides in land-then-ride order, then the standalone rides. *)
Definition flatten_response (resp : json) (park_id : Z) : list ride_record :=
  flat_map (land_records park_id) (array_at resp "lands")
  ++ standalone_records park_id resp.

(** Sum of the lengths of the nested ["rides"] arrays over the ["lands"]
    array, plus the length of the top-level ["rides"] array. *)
Definition ride_total (resp : json) : nat :=
  (list_sum (map (fun land => length (array_at land "rides"))
               (array_at resp "lands"))
   + length (array_at resp "rides"))%nat.

Definition is_dict (v : json) : Prop := exists m, v = JObj m.

(** The ["rides"] entry of a dictionary is absent or an array of
    dictionaries. *)
Definition rides_valid (v : json) : Prop :=
  match v with
  | JObj m =>
      match m !! "rides" with
      | None => True
      | Some (JArr l) => Forall is_dict l
      | Some _ => False
      end
  | _ => False
  end.

(** A response of the documented shape: a dictionary whose ["lands"], when
    present, is an array of land dictionaries and whose ["rides"], when
    present, is an array of ride dictionaries. *)
Definition valid_response (resp : json) : Prop :=
  rides_valid resp /\
  match resp with
  | JObj m =>
      match m !! "lands" with
      | None => True
      | Some (JArr ls) => Forall rides_valid ls
      | Some _ => False
      end
  | _ => False
  end.

(** The store calls [collect_park] makes for one parsed ride. *)
Definition ride_calls (park_id : Z) (collected_at : datetime)
    (ride : ride_record) : list store_call :=
  (if is_none (r_land_id ride) then []
   else [InsertLand (r_land_id ride) (JInt park_id) (r_land_name ride)])
  ++ [InsertRide (r_id ride) (JInt park_id) (r_name ride) (r_land_id ride);
      InsertWaitTime (r_id ride) (r_wait_time ride) (r_is_open ride)
        collected_at (r_last_updated ride)].

(** The store calls of a whole successful [collect_park]. *)
Definition park_calls (park_id : Z) (park_name : string)
    (collected_at : datetime) (rides : list ride_record) : list store_call :=
  InsertPark (JInt park_id) (JStr park_name)
  :: flat_map (ride_calls park_id collected_at) rides.

(** What a call refers to must have been the subject of an earlier call:
    a land's park; a ride's park and, when it has one, its land; a reading's
    ride. *)
Definition parents_inserted (seen : list store_call) (c : store_call) : Prop :=
  match c with
  | InsertLand _ park_id _ => exists name, In (InsertPark park_id name) seen
  | InsertRide _ park_id _ land_id =>
      (exists name, In (InsertPark park_id name) seen) /\
      (is_none land_id = false ->
       exists name, In (InsertLand land_id park_id name) seen)
  | InsertWaitTime ride_id _ _ _ _ =>
      exists park_id name land_id,
        In (InsertRide ride_id park_id name land_id) seen
  | _ => True
  end.

(** Foreign-key discipline of a sequence of store calls made after [seen]. *)
Fixpoint disciplined (seen calls : list store_call) : Prop :=
  match calls with
  | [] => True
  | c :: rest => parents_inserted seen c /\ disciplined (seen ++ [c]) rest
  end.

(** The waits of a trace, in order. *)
Definition sleeps (trace : list event) : list Z :=
  flat_map (fun ev => match ev with Sleep s => [s] | _ => [] end) trace.

(** The number of HTTP requests of a trace. *)
Definition request_count (trace : list event) : nat :=
  length (List.filter (fun ev => match ev with Request _ => true | _ => false end)
            trace).

(** Every attempt index below [n] fails for the park. *)
Definition all_fail (net : Z -> nat -> http_outcome) (park_id : Z) (n : nat)
  : Prop :=
  forall k, (k < n)%nat -> forall body, net park_id k <> Response body.

Definition int64 (z : Z) : Prop := - 2 ^ 63 <= z < 2 ^ 63.

(** A record carries its ride's ["is_open"] value, [False] when the key is
    absent, and its ["wait_time"] value, [None] when the key is absent. *)
Definition carries_ride_fields (ride : json) (r : ride_record) : Prop :=
  exists m, ride = JObj m /\
    r_is_open r = match m !! "is_open" with
                  | Some v => v
                  | None => JBool false
                  end /\
    r_wait_time r = match m !! "wait_time" with
                    | Some v => v
                    | None => JNull
                    end.

(** A record carries its land's ["id"] and ["name"] values, [None] for an
    absent key. *)
Definition carries_land_fields (land : json) (r : ride_record) : Prop :=
  exists m, land = JObj m /\
    r_land_id r = match m !! "id" with
                  | Some v => v
                  | None => JNull
                  end /\
    r_land_name r = match m !! "name" with
                    | Some v => v
                    | None => JNull
                    end.

(** The rides of a land that went through the parser are dictionaries. *)
Definition parsed_land (land : json) : Prop :=
  is_dict land /\ Forall is_dict (array_at land "rides").

(** Arguments of the annotated types [Optional[int]] and [Optional[str]]. *)
Definition py_opt_int (o : option Z) : json :=
  match o with
  | Some z => JInt z
  | None => JNull
  end.

Definition py_opt_str (o : option string) : json :=
  match o with
  | Some s => JStr s
  | None => JNull
  end.




(** ** Concrete data for the examples *)

Definition obj (l : list (string * json)) : json := JObj (list_to_map l).

Definition sample_response : json :=
  obj [ ("lands",
         JArr [ obj [ ("id", JInt 100);
                      ("name", JStr "The Wizarding World");
                      ("rides",
                       JArr [ obj [ ("id", JInt 1001);
                                    ("name", JStr "Motorbike Adventure");
                                    ("is_open", JBool true);
                                    ("wait_time", JInt 120);
                                    ("last_updated", JStr "2025-12-30T14:30:00.000Z") ];
                              obj [ ("id", JInt 1003);
                                    ("name", JStr "VelociCoaster");
                                    ("wait_time", JNull) ] ]) ] ]);
        ("rides",
         JArr [ obj [ ("id", JInt 2001);
                      ("name", JStr "Single Rider");
                      ("is_open", JBool true);
                      ("wait_time", JInt 0) ] ]) ].

(** Monday 29 December 2025, 14:30. *)
Definition monday_afternoon : datetime :=
  {| dt_year := 2025; dt_month := 12; dt_day := 29; dt_hour := 14;
     dt_minute := 30; dt_second := 0; dt_microsecond := 0 |}.

(** Saturday 27 December 2025, 12:00. *)
Definition saturday_noon : datetime :=
  {| dt_year := 2025; dt_month := 12; dt_day := 27; dt_hour := 12;
     dt_minute := 0; dt_second := 0; dt_microsecond := 0 |}.

Definition fresh_world : world :=
  {| w_db := empty_database; w_trace := [] |}.

(** The world after [init_database] on a new database file. *)
Definition ready_world : world :=
  {| w_db := {| schema := true; parks := []; lands := []; rides := [];
                wait_times := [] |};
     w_trace := [] |}.



(** A top-level ride without a ["name"]. *)
Definition response_ride_without_name : json :=
  obj [ ("rides", JArr [ obj [ ("id", JInt 7) ] ]) ].

(** A database holding one park, one of its lands and one of its rides. *)
Definition database_with_ride : database :=
  {| schema := true;
     parks := [{| parks_id := 64;
                  parks_name := SqlText "Islands of Adventure" |}];
     lands := [{| lands_id := 100; lands_park_id := SqlInt 64;
                  lands_name := SqlText "The Wizarding World" |}];
     rides := [{| rides_id := 1001; rides_land_id := SqlNull;
                  rides_park_id := SqlInt 64;
                  rides_name := SqlText "Motorbike Adventure" |}];
     wait_times := [] |}.

(** A network on which the first configured park is down and every other
    park answers at once with the sample response. *)
Definition net_first_park_down : Z -> nat -> http_outcome :=
  fun park_id _ => if park_id =? 64 then Timeout else Response sample_response.

(** A network on which every request times out. *)
Definition net_down : Z -> nat -> http_outcome := fun _ _ => Timeout.

(** A network that answers every park at once with the same body. *)
Definition net_serving (body : json) : Z -> nat -> http_outcome :=
  fun _ _ => Response body.

(** ** The store as a whole *)

(** What a store call does to the database; the two counting functions
    leave it alone. *)
Definition run_call (call : store_call) (db : database) : result database :=
  match call with
  | InitDatabase => init_database db
  | InsertPark park_id name => insert_park park_id name db
  | InsertLand land_id park_id name => insert_land land_id park_id name db
  | InsertRide ride_id park_id name land_id =>
      insert_ride ride_id park_id name land_id db
  | InsertWaitTime ride_id wait_time is_open collected_at api_last_updated =>
      insert_wait_time ride_id wait_time is_open collected_at api_last_updated
        db
  | GetRideCount => rbind (get_ride_count db) (fun _ => Ok db)
  | GetWaitTimeCount => rbind (get_wait_time_count db) (fun _ => Ok db)
  end.

(** The rows a call can add to each table. *)
Definition adds_reading (call : store_call) : nat :=
  match call with
  | InsertWaitTime _ _ _ _ _ => 1
  | _ => 0
  end.

Definition adds_ride (call : store_call) : nat :=
  match call with
  | InsertRide _ _ _ _ => 1
  | _ => 0
  end.

Definition adds_land (call : store_call) : nat :=
  match call with
  | InsertLand _ _ _ => 1
  | _ => 0
  end.

Definition adds_park (call : store_call) : nat :=
  match call with
  | InsertPark _ _ => 1
  | _ => 0
  end.

(** Every id is below all the ids after it. *)
Fixpoint increasing (ids : list Z) : Prop :=
  match ids with
  | [] => True
  | z :: rest => Forall (fun y => z < y) rest /\ increasing rest
  end.

(** The record [parse_rides] makes of a top-level ride with the given
    values. *)
Definition standalone_ride (park_id : Z) (id name : json) (is_open : bool)
    (wait_time : option Z) (last_updated : option string) : ride_record :=
  {| r_id := id; r_name := name; r_is_open := JBool is_open;
     r_wait_time := py_opt_int wait_time;
     r_last_updated := py_opt_str last_updated;
     r_land_id := JNull; r_land_name := JNull; r_park_id := park_id |}.

(** An upsert of a park, land or ride whose id is not [None]. *)
Definition upsert_with_id (call : store_call) : Prop :=
  match call with
  | InsertPark id _ | InsertLand id _ _ | InsertRide id _ _ _ =>
      is_none id = false
  | _ => False
  end.


(** No two rows of a table share their primary key. *)
Definition unique_keys (db : database) : Prop :=
  NoDup (map parks_id (parks db)) /\
  NoDup (map lands_id (lands db)) /\
  NoDup (map rides_id (rides db)) /\
  NoDup (map wt_id (wait_times db)).

(** Every foreign-key column is NULL or names a row of the parent table. *)
Definition foreign_keys_hold (db : database) : Prop :=
  Forall (fun l => references (lands_park_id l) (map parks_id (parks db)) = true)
    (lands db) /\
  Forall (fun r =>
            references (rides_land_id r) (map lands_id (lands db)) = true /\
            references (rides_park_id r) (map parks_id (parks db)) = true)
    (rides db) /\
  Forall (fun w => references (wt_ride_id w) (map rides_id (rides db)) = true)
    (wait_times db).

(** No [NOT NULL] column holds NULL. *)
Definition not_null_holds (db : database) : Prop :=
  Forall (fun p => is_null (parks_name p) = false) (parks db) /\
  Forall (fun l => is_null (lands_park_id l) = false /\
                   is_null (lands_name l) = false) (lands db) /\
  Forall (fun r => is_null (rides_park_id r) = false /\
                   is_null (rides_name r) = false) (rides db) /\
  Forall (fun w => is_null (wt_ride_id w) = false /\
                   is_null (wt_is_open w) = false) (wait_times db).

(** [db'] holds every row of [db], unchanged and in place, and possibly more
    rows after them; created tables stay created. *)
Definition grown_from (db db' : database) : Prop :=
  (schema db = true -> schema db' = true) /\
  parks db `prefix_of` parks db' /\
  lands db `prefix_of` lands db' /\
  rides db `prefix_of` rides db' /\
  wait_times db `prefix_of` wait_times db'.

(** The store calls of a trace, in order. *)
Definition store_calls (trace : list event) : list store_call :=
  flat_map (fun ev => match ev with Store call => [call] | _ => [] end) trace.

(** The database after a sequence of store calls; a call that raises writes
    nothing. *)
Fixpoint run_calls (calls : list store_call) (db : database) : database :=
  match calls with
  | [] => db
  | call :: rest =>
      run_calls rest
        (match run_call call db with
         | Ok db' => db'
         | Raise _ => db
         end)
  end.

(** A computation of the collector conforms to [Q] when, however it ends,
    the events it adds to the trace all satisfy [Q] and the database it
    leaves is the one its store calls produce. *)
Definition conforms {A} (Q : event -> Prop) (m : M A) : Prop :=
  forall w w' r,
    m w = (w', r) ->
    exists evs,
      w_trace w' = w_trace w ++ evs /\
      w_db w' = run_calls (store_calls evs) (w_db w) /\
      Forall Q evs.

(** The readings [db'] holds beyond those of [db] were all collected at
    [t]. *)
Definition readings_stamped (t : datetime) (db db' : database) : Prop :=
  exists new,
    wait_times db' = wait_times db ++ new /\
    Forall (fun row => wt_collected_at row = t) new.

(** The events a run started at [now] may add to the trace: readings are
    recorded with [collected_at = now], and requests go to configured
    parks. *)
Definition run_event (now : datetime) (ev : event) : Prop :=
  match ev with
  | Store (InsertWaitTime _ _ _ collected_at _) => collected_at = now
  | Request park_id => In park_id (map fst PARKS)
  | _ => True
  end.

(** The seconds slept in a trace. *)
Definition total_sleep (trace : list event) : Z :=
  fold_right Z.add 0 (sleeps trace).

(** However the computation ends, it makes at most [n] requests and sleeps
    at most [n] seconds. *)
Definition within_budget {A} (n : nat) (m : M A) : Prop :=
  forall w w' r,
    m w = (w', r) ->
    exists evs,
      w_trace w' = w_trace w ++ evs /\
      (request_count evs <= n)%nat /\
      0 <= total_sleep evs <= Z.of_nat n.

(** The exceptions that the modelled data can cause in a run: a response of
    an unexpected shape, or a value the store cannot bind or accept. *)
Definition data_error (e : exn) : Prop :=
  match e with
  | TypeError | AttributeError | OverflowError | ProgrammingError
  | IntegrityError _ => True
  | OperationalError | SystemExit _ => False
  end.

(** From a database satisfying [P] the computation leaves a database
    satisfying [P], and raises only exceptions in [E]. *)
Definition guarded {A} (P : database -> Prop) (E : exn -> Prop) (m : M A)
  : Prop :=
  forall w w' r,
    P (w_db w) -> m w = (w', r) ->
    P (w_db w') /\ forall e, r = Raise e -> E e.

Definition schema_created (db : database) : Prop := schema db = true.

(** * Properties *)

(** ** Loops of the parser *)

Lemma rbind_ok {A B} (r : result A) (k : A -> result B) (b : B) :
  rbind r k = Ok b -> exists a, r = Ok a /\ k a = Ok b.
Proof. destruct r as [a|e]; simpl; [eauto | discriminate]. Qed.

Lemma ride_entry_dict m land_id land_name park_id :
  ride_entry (JObj m) land_id land_name park_id
  = Ok (record_of park_id land_id land_name (JObj m)).
Proof. reflexivity. Qed.

Lemma ride_entry_ok ride land_id land_name park_id entry :
  ride_entry ride land_id land_name park_id = Ok entry ->
  is_dict ride /\ entry = record_of park_id land_id land_name ride.
Proof.
  destruct ride; try discriminate.
  rewrite ride_entry_dict. intros [= <-].
  split; [eexists; reflexivity | reflexivity].
Qed.

(** The inner loop appends the record of every item, and only runs through
    when every item is a dictionary. *)
Lemma append_loop_ok park_id land_id land_name items :
  forall acc rs,
    for_in items
      (fun ride rides =>
         (entry <- ride_entry ride land_id land_name park_id ;;
          Ok (rides ++ [entry]))%res) acc = Ok rs ->
    Forall is_dict items /\
    rs = acc ++ map (record_of park_id land_id land_name) items.
Proof.
  induction items as [|ride items IH]; simpl; intros acc rs H.
  - injection H as <-. split; [constructor | now rewrite app_nil_r].
  - apply rbind_ok in H as (acc' & Hbody & Hrest).
    apply rbind_ok in Hbody as (entry & Hentry & Hacc).
    injection Hacc as <-.
    apply ride_entry_ok in Hentry as [Hdict ->].
    apply IH in Hrest as [Hall ->].
    split; [constructor; assumption | now rewrite <- app_assoc].
Qed.

Lemma append_loop_total park_id land_id land_name items :
  Forall is_dict items ->
  forall acc,
    for_in items
      (fun ride rides =>
         (entry <- ride_entry ride land_id land_name park_id ;;
          Ok (rides ++ [entry]))%res) acc
    = Ok (acc ++ map (record_of park_id land_id land_name) items).
Proof.
  induction 1 as [|ride items [m ->] _ IH]; intros acc; simpl.
  - now rewrite app_nil_r.
  - rewrite IH, <- app_assoc. reflexivity.
Qed.

(** Iterating a string or a dictionary yields strings, never dictionaries:
    a loop whose body needs dictionaries only survives an array, or an
    iterable without items. *)
Lemma py_iter_dicts v items :
  py_iter v = Ok items -> Forall is_dict items -> items = elements v.
Proof.
  destruct v as [| | |s|l|m]; simpl; try discriminate; intros [= <-] Hall.
  - destruct s as [|c s]; simpl in *; [reflexivity|].
    inversion Hall as [|? ? [m Hm] _]. discriminate.
  - reflexivity.
  - destruct (map_to_list m) as [|kv kvs]; simpl in *; [reflexivity|].
    inversion Hall as [|? ? [m' Hm] _]. discriminate.
Qed.

Lemma parse_land_ok park_id land acc rs :
  parse_land park_id land acc = Ok rs ->
  parsed_land land /\ rs = acc ++ land_records park_id land.
Proof.
  destruct land as [| | | | |m]; try discriminate.
  unfold parse_land; simpl. intros H.
  apply rbind_ok in H as (items & Hiter & Hloop).
  apply append_loop_ok in Hloop as [Hall ->].
  pose proof (py_iter_dicts _ _ Hiter Hall) as ->.
  split; [split; [eexists; reflexivity | exact Hall] | reflexivity].
Qed.

Lemma parse_land_total park_id land acc :
  rides_valid land ->
  parse_land park_id land acc = Ok (acc ++ land_records park_id land).
Proof.
  destruct land as [| | | | |m]; simpl; try contradiction.
  unfold parse_land, land_records, array_at; simpl.
  destruct (m !! "rides") as [[| | | |l|]|]; simpl; try contradiction.
  - intros Hall. now apply append_loop_total.
  - intros _. now rewrite app_nil_r.
Qed.

Lemma lands_loop_ok park_id lands :
  forall acc rs,
    for_in lands (parse_land park_id) acc = Ok rs ->
    Forall parsed_land lands /\ rs = acc ++ flat_map (land_records park_id) lands.
Proof.
  induction lands as [|land lands IH]; simpl; intros acc rs H.
  - injection H as <-. split; [constructor | now rewrite app_nil_r].
  - apply rbind_ok in H as (acc' & Hland & Hrest).
    apply parse_land_ok in Hland as [Hdict ->].
    apply IH in Hrest as [Hall ->].
    split; [constructor; assumption | now rewrite <- app_assoc].
Qed.

Lemma lands_loop_total park_id lands :
  Forall rides_valid lands ->
  forall acc,
    for_in lands (parse_land park_id) acc
    = Ok (acc ++ flat_map (land_records park_id) lands).
Proof.
  induction 1 as [|land lands Hland _ IH]; intros acc; simpl.
  - now rewrite app_nil_r.
  - rewrite parse_land_total by assumption. simpl.
    rewrite IH, <- app_assoc. reflexivity.
Qed.

(** Whenever [parse_rides] returns, it returns the flattened response, and
    every land and ride it went through was a dictionary. *)
Lemma parse_rides_ok resp park_id rs :
  parse_rides resp park_id = Ok rs ->
  rs = flatten_response resp park_id /\
  Forall parsed_land (array_at resp "lands") /\
  Forall is_dict (array_at resp "rides").
Proof.
  destruct resp as [| | | | |m]; try discriminate.
  unfold parse_rides; simpl. intros H.
  apply rbind_ok in H as (land_items & Hlands & H).
  apply rbind_ok in H as (nested & Hloop & H).
  apply lands_loop_ok in Hloop as [Hparsed ->].
  assert (Hdicts : Forall is_dict land_items).
  { eapply Forall_impl; [exact Hparsed|]. now intros land [Hd _]. }
  pose proof (py_iter_dicts _ _ Hlands Hdicts) as ->.
  apply rbind_ok in H as (ride_items & Hrides & H).
  apply append_loop_ok in H as [Hall ->].
  pose proof (py_iter_dicts _ _ Hrides Hall) as ->.
  split; [reflexivity | split; assumption].
Qed.

(** On a response of the documented shape [parse_rides] does return. *)
Lemma parse_rides_total resp park_id :
  valid_response resp ->
  parse_rides resp park_id = Ok (flatten_response resp park_id).
Proof.
  destruct resp as [| | | | |m]; intros [Hrides Hlands]; try contradiction.
  simpl in Hrides, Hlands.
  assert (Hl : py_iter (default (JArr []) (m !! "lands"))
               = Ok (elements (default (JArr []) (m !! "lands"))) /\
               Forall rides_valid (elements (default (JArr []) (m !! "lands")))).
  { destruct (m !! "lands") as [[| | | |ls|]|]; simpl; try contradiction;
      split; (reflexivity || assumption || constructor). }
  assert (Hr : py_iter (default (JArr []) (m !! "rides"))
               = Ok (elements (default (JArr []) (m !! "rides"))) /\
               Forall is_dict (elements (default (JArr []) (m !! "rides")))).
  { destruct (m !! "rides") as [[| | | |l|]|]; simpl; try contradiction;
      split; (reflexivity || assumption || constructor). }
  destruct Hl as [Hl Hlv], Hr as [Hr Hrv].
  unfold parse_rides, flatten_response, standalone_records, array_at; simpl.
  rewrite Hl; simpl. rewrite lands_loop_total by assumption; simpl.
  rewrite Hr; simpl. now apply append_loop_total.
Qed.

Lemma flatten_response_length resp park_id :
  length (flatten_response resp park_id) = ride_total resp.
Proof.
  unfold flatten_response, ride_total, standalone_records.
  rewrite length_app, length_map. f_equal.
  induction (array_at resp "lands") as [|land lands IH]; simpl.
  - reflexivity.
  - rewrite length_app, IH. unfold land_records at 1.
    now rewrite length_map.
Qed.

Lemma Forall2_map_self {A B} (P : A -> B -> Prop) (f : A -> B) (l : list A) :
  Forall (fun x => P x (f x)) l -> Forall2 P l (map f l).
Proof. induction 1; simpl; constructor; assumption. Qed.

Lemma record_carries_ride_fields park_id land_id land_name ride :
  is_dict ride ->
  carries_ride_fields ride (record_of park_id land_id land_name ride).
Proof.
  intros [m ->]. exists m. simpl.
  repeat split; destruct (m !! _); reflexivity.
Qed.

Lemma sample_response_valid : valid_response sample_response.
Proof.
  split; vm_compute; repeat constructor; eexists; reflexivity.
Qed.

(** ** Parsing *)

(** C1: the list [parse_rides] returns has as many records as there are
    rides in the nested ["rides"] arrays of the ["lands"] array plus rides in
    the top-level ["rides"] array (an absent key counting as an empty
    array).  It does return on every response of the documented shape, and it
    returns the empty list on an empty dictionary and on a dictionary whose
    ["lands"] is an empty array. *)
Theorem parse_rides_length (resp : json) (park_id : Z) :
  (forall rs, parse_rides resp park_id = Ok rs -> length rs = ride_total resp)
  /\ (valid_response resp ->
      exists rs, parse_rides resp park_id = Ok rs /\ length rs = ride_total resp)
  /\ parse_rides (JObj ∅) park_id = Ok []
  /\ parse_rides (JObj {["lands" := JArr []]}) park_id = Ok [].
Proof.
  repeat split.
  - intros rs H. apply parse_rides_ok in H as [-> _].
    apply flatten_response_length.
  - intros Hvalid. eexists. split.
    + now apply parse_rides_total.
    + apply flatten_response_length.
Qed.

Lemma parse_rides_length_witness :
  valid_response sample_response /\
  exists rs, parse_rides sample_response 64 = Ok rs /\ length rs = 3%nat.
Proof.
  split.
  - exact sample_response_valid.
  - exact (proj1 (proj2 (parse_rides_length sample_response 64))
             sample_response_valid).
Defined.

(** C4: in the list [parse_rides] returns, the records of the rides nested
    in a land carry that land's ["id"] and ["name"] as [land_id] and
    [land_name], the records of the top-level rides have both set to [None],
    and every record has the ride's ["is_open"] value ([False] when the key is
    absent) and the ride's ["wait_time"] value ([None] when absent). *)
Theorem parse_rides_fields (resp : json) (park_id : Z)
    (rs : list ride_record) :
  parse_rides resp park_id = Ok rs ->
  exists nested standalone,
    rs = concat nested ++ standalone /\
    Forall2
      (fun land records =>
         Forall2
           (fun ride r =>
              carries_land_fields land r /\ carries_ride_fields ride r)
           (array_at land "rides") records)
      (array_at resp "lands") nested /\
    Forall2
      (fun ride r =>
         r_land_id r = JNull /\ r_land_name r = JNull /\
         carries_ride_fields ride r)
      (array_at resp "rides") standalone.
Proof.
  intros H. apply parse_rides_ok in H as (-> & Hlands & Hrides).
  exists (map (land_records park_id) (array_at resp "lands")),
         (standalone_records park_id resp).
  split; [|split].
  - unfold flatten_response. now rewrite flat_map_concat_map.
  - apply Forall2_map_self.
    eapply Forall_impl; [exact Hlands|].
    intros land [[m ->] Hdicts]. unfold land_records.
    apply Forall2_map_self.
    eapply Forall_impl; [exact Hdicts|].
    intros ride Hride. split.
    + exists m. simpl. repeat split; destruct (m !! _); reflexivity.
    + now apply record_carries_ride_fields.
  - unfold standalone_records. apply Forall2_map_self.
    eapply Forall_impl; [exact Hrides|].
    intros ride Hride. repeat split.
    now apply record_carries_ride_fields.
Qed.

Lemma parse_rides_fields_witness :
  parse_rides sample_response 64 = Ok (flatten_response sample_response 64) /\
  exists nested standalone,
    flatten_response sample_response 64 = concat nested ++ standalone /\
    Forall2
      (fun land records =>
         Forall2
           (fun ride r =>
              carries_land_fields land r /\ carries_ride_fields ride r)
           (array_at land "rides") records)
      (array_at sample_response "lands") nested /\
    Forall2
      (fun ride r =>
         r_land_id r = JNull /\ r_land_name r = JNull /\
         carries_ride_fields ride r)
      (array_at sample_response "rides") standalone.
Proof.
  split.
  - vm_compute. reflexivity.
  - apply (parse_rides_fields sample_response 64). vm_compute. reflexivity.
Defined.

(** C5: the list [parse_rides] returns holds the land-nested rides first, by
    land in the order of the ["lands"] array and within a land in the order
    of its ["rides"] array, followed by the top-level rides in the order of
    the top-level ["rides"] array. *)
Theorem parse_rides_order (resp : json) (park_id : Z) :
  (forall rs,
     parse_rides resp park_id = Ok rs ->
     rs = flat_map (land_records park_id) (array_at resp "lands")
          ++ standalone_records park_id resp)
  /\ (valid_response resp ->
      parse_rides resp park_id
      = Ok (flat_map (land_records park_id) (array_at resp "lands")
            ++ standalone_records park_id resp)).
Proof.
  split.
  - intros rs H. now apply parse_rides_ok in H as [-> _].
  - intros Hvalid. now apply parse_rides_total.
Qed.

Lemma parse_rides_order_witness :
  valid_response sample_response /\
  parse_rides sample_response 64
  = Ok (flat_map (land_records 64) (array_at sample_response "lands")
        ++ standalone_records 64 sample_response).
Proof.
  split.
  - exact sample_response_valid.
  - exact (proj2 (parse_rides_order sample_response 64) sample_response_valid).
Defined.

(** ** Fetching *)

Lemma all_fail_0 net park_id : all_fail net park_id 0.
Proof. intros k Hk. lia. Qed.

Lemma all_fail_S net park_id n :
  all_fail net park_id n ->
  (forall body, net park_id n <> Response body) ->
  all_fail net park_id (S n).
Proof.
  intros Hn Hlast k Hk body.
  destruct (Nat.eq_dec k n) as [->|Hne]; [apply Hlast|].
  apply Hn. lia.
Qed.

(** C2, as amended: [fetch_park_data] stops at the first attempt that is
    answered and makes at most [MAX_RETRIES] = 3 attempts; after a failed
    attempt of index [i] that is not the last one it waits [2 ^ i] seconds,
    so the waits are 1s after the first and 2s after the second attempt, and
    nothing follows the last attempt; it returns the body of the answered
    attempt, or [None] once all three attempts have failed.  The database is
    not touched. *)
Theorem fetch_park_data_backoff (net : Z -> nat -> http_outcome)
    (park_id : Z) (w w' : world) (r : result json) :
  fetch_park_data net park_id w = (w', r) ->
  w_db w' = w_db w /\
  exists (last : nat) (evs : list event),
    (last < MAX_RETRIES)%nat /\
    all_fail net park_id last /\
    w_trace w' = w_trace w ++ evs /\
    evs = flat_map (fun i => [Request park_id; Sleep (2 ^ Z.of_nat i)])
            (seq 0 last) ++ [Request park_id] /\
    request_count evs = S last /\
    sleeps evs = firstn last [1; 2] /\
    ((exists body, net park_id last = Response body /\ r = Ok body) \/
     (S last = MAX_RETRIES /\ all_fail net park_id MAX_RETRIES /\ r = Ok JNull)).
Proof.
  unfold fetch_park_data, MAX_RETRIES. simpl.
  unfold bind, emit, ret. simpl.
  pose proof (all_fail_0 net park_id) as F0.
  assert (Hcase : forall last r0,
            (last < 3)%nat -> all_fail net park_id last ->
            ((exists body, net park_id last = Response body /\ r0 = Ok body) \/
             (S last = 3%nat /\ all_fail net park_id 3 /\ r0 = Ok JNull)) ->
            exists (k : nat) (evs : list event),
              (k < 3)%nat /\ all_fail net park_id k /\
              w_trace w
              ++ (flat_map (fun i => [Request park_id; Sleep (2 ^ Z.of_nat i)])
                    (seq 0 last) ++ [Request park_id])
              = w_trace w ++ evs /\
              evs = flat_map (fun i => [Request park_id; Sleep (2 ^ Z.of_nat i)])
                      (seq 0 k) ++ [Request park_id] /\
              request_count evs = S k /\
              sleeps evs = firstn k [1; 2] /\
              ((exists body, net park_id k = Response body /\ r0 = Ok body) \/
               (S k = 3%nat /\ all_fail net park_id 3 /\ r0 = Ok JNull))).
  { intros last r0 Hlt Hfail Hres. exists last. eexists.
    do 3 (split; [first [exact Hlt | exact Hfail | reflexivity]|]).
    split; [reflexivity|].
    destruct last as [|[|[|last]]]; try lia; repeat split; assumption. }
  destruct (net park_id 0%nat) as [| | |body0] eqn:E0; simpl;
    try (assert (F1 : all_fail net park_id 1)
           by (apply all_fail_S; [exact F0 | rewrite E0; discriminate]);
         destruct (net park_id 1%nat) as [| | |body1] eqn:E1; simpl;
         try (assert (F2 : all_fail net park_id 2)
                by (apply all_fail_S; [exact F1 | rewrite E1; discriminate]);
              destruct (net park_id 2%nat) as [| | |body2] eqn:E2; simpl;
              try (assert (F3 : all_fail net park_id 3)
                     by (apply all_fail_S;
                         [exact F2 | rewrite E2; discriminate]))));
    intros [= <- <-]; (split; [reflexivity|]); simpl;
    rewrite <- ?app_assoc; simpl.
  all: first
    [ apply (Hcase 2%nat); [lia | assumption | right; repeat split; assumption]
    | apply (Hcase 2%nat); [lia | assumption | left; eauto]
    | apply (Hcase 1%nat); [lia | assumption | left; eauto]
    | apply (Hcase 0%nat); [lia | assumption | left; eauto] ].
Qed.

Lemma fetch_park_data_backoff_witness :
  let w' := {| w_db := empty_database;
               w_trace := [Request 64; Sleep 1; Request 64; Sleep 2;
                           Request 64] |} in
  fetch_park_data net_down 64 fresh_world = (w', Ok JNull) /\
  w_db w' = w_db fresh_world /\
  exists (last : nat) (evs : list event),
    (last < MAX_RETRIES)%nat /\
    all_fail net_down 64 last /\
    w_trace w' = w_trace fresh_world ++ evs /\
    evs = flat_map (fun i => [Request 64; Sleep (2 ^ Z.of_nat i)])
            (seq 0 last) ++ [Request 64] /\
    request_count evs = S last /\
    sleeps evs = firstn last [1; 2] /\
    ((exists body, net_down 64 last = Response body /\ Ok JNull = Ok body) \/
     (S last = MAX_RETRIES /\ all_fail net_down 64 MAX_RETRIES /\
      Ok JNull = Ok JNull)).
Proof.
  split.
  - reflexivity.
  - apply (fetch_park_data_backoff net_down 64 fresh_world). reflexivity.
Defined.

(** C2, as stated, fails: when every attempt fails there are three requests
    and two waits, of 1s and of 2s; no wait of 4s is ever made. *)
Lemma fetch_park_data_no_third_wait :
  let trace := w_trace (fst (fetch_park_data net_down 64 fresh_world)) in
  request_count trace = 3%nat /\
  sleeps trace = [1; 2] /\
  sleeps trace <> [1; 2; 4] /\
  ~ In (Sleep 4) trace.
Proof.
  vm_compute. repeat split; try discriminate.
  intros H. repeat (destruct H as [H|H]; [discriminate|]). exact H.
Qed.

(** ** The collector monad *)

Lemma bind_inv {A B} (m : M A) (k : A -> M B) (w w' : world) (r : result B) :
  bind m k w = (w', r) ->
  (exists e, m w = (w', Raise e) /\ r = Raise e) \/
  (exists a w1, m w = (w1, Ok a) /\ k a w1 = (w', r)).
Proof.
  unfold bind. destruct (m w) as [w1 [a|e]]; intros H.
  - right. eauto.
  - injection H as <- <-. left. eauto.
Qed.

Lemma bind_run_ok {A B} (m : M A) (k : A -> M B) (w w1 : world) (a : A) :
  m w = (w1, Ok a) -> bind m k w = k a w1.
Proof. unfold bind. now intros ->. Qed.

Lemma bind_run_raise {A B} (m : M A) (k : A -> M B) (w w1 : world) (e : exn) :
  m w = (w1, Raise e) -> bind m k w = (w1, Raise e).
Proof. unfold bind. now intros ->. Qed.

Lemma for_each_app {A S} (body : A -> S -> M S) (xs ys : list A) :
  forall s w,
    for_each (xs ++ ys) body s w
    = bind (for_each xs body s) (for_each ys body) w.
Proof.
  induction xs as [|x xs IH]; intros s w; simpl.
  - reflexivity.
  - unfold bind in *.
    destruct (body x s w) as [w1 [s1|e]]; [apply IH | reflexivity].
Qed.

Lemma prefix_map_inv {A B} (f : A -> B) (l : list A) (evs : list B) :
  evs `prefix_of` map f l ->
  exists calls, evs = map f calls /\ calls `prefix_of` l.
Proof.
  revert evs. induction l as [|x l IH]; intros evs [k Hk]; simpl in Hk.
  - destruct evs; [|discriminate]. exists []. split; [reflexivity|].
    now exists [].
  - destruct evs as [|ev evs].
    + exists []. split; [reflexivity|]. now exists (x :: l).
    + injection Hk as <- Hk.
      destruct (IH evs) as (calls & -> & Hp); [now exists k|].
      exists (x :: calls). split; [reflexivity|]. now apply prefix_cons.
Qed.

(** ** Write order of [collect_park] *)

Ltac split_store_results :=
  repeat match goal with
         | |- context [match ?x with Ok _ => _ | Raise _ => _ end] =>
             destruct x eqn:?; simpl
         end.

(** One pass of the loop body makes the calls of [ride_calls], in that
    order, up to the first one that raises. *)
Lemma collect_ride_events park_id t ride n w w' res :
  collect_ride park_id t ride n w = (w', res) ->
  exists evs,
    w_trace w' = w_trace w ++ evs /\
    evs `prefix_of` map Store (ride_calls park_id t ride) /\
    (forall n', res = Ok n' ->
                evs = map Store (ride_calls park_id t ride) /\ n' = n + 1).
Proof.
  unfold collect_ride, ride_calls, bind, ret, exec_insert_land,
    exec_insert_ride, exec_insert_wait_time, store.
  destruct (is_none (r_land_id ride)); simpl; split_store_results;
    intros [= <- <-]; simpl; rewrite <- ?app_assoc; simpl;
    (eexists; split; [reflexivity|]; split; [eexists; reflexivity|]);
    intros n' Hn; first [discriminate | injection Hn as <-; now split].
Qed.

Lemma collect_rides_events park_id t rides :
  forall n w w' res,
    for_each rides (collect_ride park_id t) n w = (w', res) ->
    exists evs,
      w_trace w' = w_trace w ++ evs /\
      evs `prefix_of` map Store (flat_map (ride_calls park_id t) rides) /\
      (forall n', res = Ok n' ->
                  evs = map Store (flat_map (ride_calls park_id t) rides) /\
                  n' = n + Z.of_nat (length rides)).
Proof.
  induction rides as [|ride rides IH]; intros n w w' res H; simpl in H.
  - injection H as <- <-. exists []. rewrite app_nil_r.
    split; [reflexivity|]. split; [now exists []|].
    intros n' [= <-]. split; [reflexivity | simpl; lia].
  - simpl flat_map. rewrite map_app.
    apply bind_inv in H as [(e & Hride & ->)|(n1 & w1 & Hride & Hrest)];
      apply collect_ride_events in Hride as (evs1 & Ht1 & Hp1 & Hok1).
    + exists evs1. split; [exact Ht1|]. split; [|discriminate].
      now apply prefix_app_r.
    + destruct (Hok1 n1 eq_refl) as [-> ->].
      apply IH in Hrest as (evs2 & Ht2 & Hp2 & Hok2).
      exists (map Store (ride_calls park_id t ride) ++ evs2).
      split; [rewrite Ht2, Ht1; now rewrite app_assoc|].
      split; [now apply prefix_app|].
      intros n' Hn. destruct (Hok2 n' Hn) as [-> ->].
      split; [reflexivity|]. rewrite length_cons. lia.
Qed.

Lemma collect_park_events net park_id park_name t w w1 data w' res :
  fetch_park_data net park_id w = (w1, Ok data) ->
  is_none data = false ->
  collect_park net park_id park_name t w = (w', res) ->
  exists evs,
    w_trace w' = w_trace w1 ++ Store (InsertPark (JInt park_id) (JStr park_name)) :: evs /\
    evs `prefix_of`
      map Store (flat_map (ride_calls park_id t) (flatten_response data park_id)) /\
    (forall n, res = Ok n ->
               exists rides,
                 parse_rides data park_id = Ok rides /\
                 evs = map Store (flat_map (ride_calls park_id t) rides) /\
                 n = Z.of_nat (length rides)).
Proof.
  intros Hfetch Hdata. unfold collect_park.
  rewrite (bind_run_ok _ _ _ _ _ Hfetch), Hdata.
  intros H.
  apply bind_inv in H as [(e & Hpark & ->)|([] & w2 & Hpark & H)];
    unfold exec_insert_park, store in Hpark;
    destruct (insert_park _ _ _) as [db|e']; try discriminate.
  - injection Hpark as <- _. exists []. simpl.
    split; [reflexivity|]. split; [apply prefix_nil | discriminate].
  - injection Hpark as <-.
    unfold bind at 1, lift in H.
    destruct (parse_rides data park_id) as [rides|e] eqn:Hparse.
    + apply collect_rides_events in H as (evs & Ht & Hp & Hok).
      exists evs. simpl in Ht. rewrite <- app_assoc in Ht.
      split; [exact Ht|].
      apply parse_rides_ok in Hparse as Hflat. destruct Hflat as [<- _].
      split; [exact Hp|].
      intros n Hn. exists rides. destruct (Hok n Hn) as [-> ->].
      repeat split; lia.
    + injection H as <- <-. exists []. simpl.
      split; [reflexivity|]. split; [apply prefix_nil | discriminate].
Qed.

Lemma parents_inserted_mono seen seen' c :
  (forall x, In x seen -> In x seen') ->
  parents_inserted seen c -> parents_inserted seen' c.
Proof.
  intros Hincl. destruct c; simpl; try tauto.
  - intros [nm H]. eauto.
  - intros [[nm H] Hland]. split; [eauto|].
    intros Hsome. destruct (Hland Hsome) as [nm' H']. eauto.
  - intros (p & nm & l & H). eauto 6.
Qed.

Lemma disciplined_mono calls :
  forall seen seen',
    (forall x, In x seen -> In x seen') ->
    disciplined seen calls -> disciplined seen' calls.
Proof.
  induction calls as [|c calls IH]; simpl; intros seen seen' Hincl; [tauto|].
  intros [Hc Hrest]. split.
  - eapply parents_inserted_mono; eassumption.
  - eapply IH; [|exact Hrest].
    intros x Hx. apply in_app_or in Hx as [Hx|Hx]; apply in_or_app; auto.
Qed.

Lemma disciplined_app l1 :
  forall seen l2,
    disciplined seen l1 -> disciplined (seen ++ l1) l2 ->
    disciplined seen (l1 ++ l2).
Proof.
  induction l1 as [|c l1 IH]; simpl; intros seen l2 H1 H2.
  - now rewrite app_nil_r in H2.
  - destruct H1 as [Hc H1]. split; [exact Hc|].
    apply IH; [exact H1|]. now rewrite <- app_assoc.
Qed.

Lemma disciplined_prefix l1 :
  forall seen l2,
    l1 `prefix_of` l2 -> disciplined seen l2 -> disciplined seen l1.
Proof.
  induction l1 as [|c l1 IH]; simpl; intros seen l2 [k ->]; [tauto|].
  simpl. intros [Hc Hrest]. split; [exact Hc|].
  eapply IH; [|exact Hrest]. now exists k.
Qed.

Lemma ride_calls_disciplined seen park_id t ride :
  (exists name, In (InsertPark (JInt park_id) name) seen) ->
  disciplined seen (ride_calls park_id t ride).
Proof.
  intros [name Hpark]. unfold ride_calls.
  destruct (is_none (r_land_id ride)) eqn:Hland; simpl.
  - repeat split.
    + eauto.
    + intros Hsome. congruence.
    + do 3 eexists. apply in_or_app. right. left. reflexivity.
  - repeat split.
    + eauto.
    + exists name. apply in_or_app. now left.
    + intros _. eexists. apply in_or_app. right. left. reflexivity.
    + do 3 eexists. apply in_or_app. right. left. reflexivity.
Qed.

Lemma rides_calls_disciplined park_id t rides :
  forall seen,
    (exists name, In (InsertPark (JInt park_id) name) seen) ->
    disciplined seen (flat_map (ride_calls park_id t) rides).
Proof.
  induction rides as [|ride rides IH]; intros seen Hpark; simpl; [exact I|].
  apply disciplined_app.
  - now apply ride_calls_disciplined.
  - apply IH. destruct Hpark as [name H]. exists name.
    apply in_or_app. now left.
Qed.

Lemma park_calls_disciplined park_id park_name t rides :
  disciplined [] (park_calls park_id park_name t rides).
Proof.
  unfold park_calls. simpl. split; [exact I|].
  apply rides_calls_disciplined. exists (JStr park_name). now left.
Qed.

(** C7: after a successful fetch, the store calls of [collect_park] are,
    in this order, the upsert of the park and then, for each parsed ride in
    the order [parse_rides] returns them, the upsert of its land when
    [land_id] is not [None], the upsert of the ride, and the recording of its
    reading; an exception can only cut this sequence short.  So every call is
    preceded, within the run, by the calls inserting what it refers to: the
    reading's ride, the ride's park and land, the land's park. *)
Theorem collect_park_write_order (net : Z -> nat -> http_outcome)
    (park_id : Z) (park_name : string) (t : datetime)
    (w w1 w' : world) (data : json) (res : result Z) :
  fetch_park_data net park_id w = (w1, Ok data) ->
  is_none data = false ->
  collect_park net park_id park_name t w = (w', res) ->
  exists calls,
    w_trace w' = w_trace w1 ++ map Store calls /\
    hd_error calls = Some (InsertPark (JInt park_id) (JStr park_name)) /\
    calls `prefix_of`
      park_calls park_id park_name t (flatten_response data park_id) /\
    disciplined [] calls /\
    (forall n,
       res = Ok n ->
       exists rides,
         parse_rides data park_id = Ok rides /\
         calls = park_calls park_id park_name t rides /\
         n = Z.of_nat (length rides)).
Proof.
  intros Hfetch Hdata H.
  destruct (collect_park_events _ _ _ _ _ _ _ _ _ Hfetch Hdata H)
    as (evs & Ht & Hp & Hok).
  apply prefix_map_inv in Hp as (calls & -> & Hp).
  exists (InsertPark (JInt park_id) (JStr park_name) :: calls).
  assert (Hpre : InsertPark (JInt park_id) (JStr park_name) :: calls
                 `prefix_of`
                 park_calls park_id park_name t
                   (flatten_response data park_id)).
  { unfold park_calls. now apply prefix_cons. }
  split; [exact Ht|]. split; [reflexivity|]. split; [exact Hpre|].
  split.
  - eapply disciplined_prefix; [exact Hpre|]. apply park_calls_disciplined.
  - intros n Hn. destruct (Hok n Hn) as (rides & Hparse & Hevs & ->).
    exists rides. split; [exact Hparse|]. split; [|reflexivity].
    unfold park_calls. f_equal.
    revert Hevs. generalize (flat_map (ride_calls park_id t) rides).
    clear. induction calls as [|c calls IH]; intros [|c' l]; simpl;
      try discriminate; [reflexivity|].
    intros [= -> H]. f_equal. now apply IH.
Qed.

Lemma collect_park_write_order_witness :
  let net := net_serving sample_response in
  let w1 := {| w_db := w_db ready_world; w_trace := [Request 64] |} in
  let out := collect_park net 64 "Islands of Adventure" monday_afternoon
               ready_world in
  fetch_park_data net 64 ready_world = (w1, Ok sample_response) /\
  is_none sample_response = false /\
  snd out = Ok 3 /\
  exists calls,
    w_trace (fst out) = w_trace w1 ++ map Store calls /\
    hd_error calls
    = Some (InsertPark (JInt 64) (JStr "Islands of Adventure")) /\
    calls `prefix_of`
      park_calls 64 "Islands of Adventure" monday_afternoon
        (flatten_response sample_response 64) /\
    disciplined [] calls /\
    (forall n,
       snd out = Ok n ->
       exists rides,
         parse_rides sample_response 64 = Ok rides /\
         calls = park_calls 64 "Islands of Adventure" monday_afternoon rides /\
         n = Z.of_nat (length rides)).
Proof.
  intros net w1 out.
  split; [vm_compute; reflexivity|].
  split; [reflexivity|].
  split; [vm_compute; reflexivity|].
  apply (collect_park_write_order net 64 "Islands of Adventure"
           monday_afternoon ready_world w1 (fst out) sample_response (snd out)).
  - vm_compute. reflexivity.
  - reflexivity.
  - apply surjective_pairing.
Defined.

(** ** Lands without an id or a name *)










(** ** Failure of a park *)

Lemma collect_park_fetch_failed net park_id park_name t w :
  all_fail net park_id MAX_RETRIES ->
  collect_park net park_id park_name t w
  = ({| w_db := w_db w;
        w_trace := w_trace w ++ [Request park_id; Sleep 1; Request park_id;
                                 Sleep 2; Request park_id] |},
     Ok (-1)).
Proof.
  intros Hfail.
  assert (H0 := Hfail 0%nat). assert (H1 := Hfail 1%nat).
  assert (H2 := Hfail 2%nat).
  unfold collect_park, fetch_park_data, MAX_RETRIES in *. simpl.
  unfold bind, emit, ret. simpl.
  destruct (net park_id 0%nat); [| | |exfalso; eapply H0; [lia|reflexivity]];
    (destruct (net park_id 1%nat);
     [| | |exfalso; eapply H1; [lia|reflexivity]]);
    (destruct (net park_id 2%nat);
     [| | |exfalso; eapply H2; [lia|reflexivity]]);
    simpl; rewrite <- !app_assoc; reflexivity.
Qed.

Lemma collect_parks_outcomes net t parks :
  NoDup (map snd parks) ->
  forall res0 w w' results,
    collect_parks net parks t res0 w = (w', Ok results) ->
    (forall park_id park_name,
       In (park_id, park_name) parks ->
       exists r wa wb,
         collect_park net park_id park_name t wa = (wb, Ok r) /\
         results !! park_name = Some r) /\
    (forall park_name,
       ~ In park_name (map snd parks) ->
       results !! park_name = res0 !! park_name).
Proof.
  unfold collect_parks.
  induction parks as [|[pid name] parks IH]; simpl; intros Hnodup res0 w w'
    results H.
  - injection H as <- <-. split; [contradiction | reflexivity].
  - inversion Hnodup as [|? ? Hfresh Hnodup']; subst.
    rewrite list_elem_of_In in Hfresh.
    apply bind_inv in H as [(e & _ & [=])|(res1 & w1 & Hpark & Hrest)].
    apply bind_inv in Hpark as [(e & _ & [=])|(r & w2 & Hpark & Hret)].
    injection Hret as <- <-.
    destruct (IH Hnodup' _ _ _ _ Hrest) as [Hin Hout].
    split.
    + intros park_id park_name [[= <- <-]|Hp].
      * exists r, w, w2. split; [exact Hpark|].
        rewrite (Hout name Hfresh). simpl. apply lookup_insert_eq.
      * now apply Hin.
    + intros park_name Hnot. rewrite Hout by tauto.
      simpl. apply lookup_insert_ne. tauto.
Qed.

Lemma any_negative_spec (results : gmap string Z) :
  any_negative results = true <->
  exists park_name r, results !! park_name = Some r /\ r < 0.
Proof.
  unfold any_negative. rewrite existsb_exists. split.
  - intros (r & Hin & Hneg). apply in_map_iff in Hin as ([name r'] & <- & Hin).
    exists name, r'. split; [|simpl in Hneg; lia].
    apply elem_of_map_to_list. now apply list_elem_of_In.
  - intros (name & r & Hlook & Hneg). exists r. split; [|lia].
    apply in_map_iff. exists (name, r). split; [reflexivity|].
    apply list_elem_of_In. now apply elem_of_map_to_list.
Qed.

Lemma PARKS_names_distinct : NoDup (map snd PARKS).
Proof.
  simpl. repeat (apply NoDup_cons; split; [|]); try apply NoDup_nil_2;
    rewrite list_elem_of_In; simpl; intros H;
    repeat (destruct H as [H|H]; [discriminate|]); exact H.
Qed.

(** ** Readings of rides that do not exist *)

Lemma bind_param_opt_int (o : option Z) :
  (forall n, o = Some n -> int64 n) ->
  exists v, bind_param (py_opt_int o) = Ok v.
Proof.
  destruct o as [n|]; simpl; [|eauto].
  intros H. destruct (H n eq_refl) as [Hlo Hhi].
  apply Z.leb_le in Hlo. apply Z.ltb_lt in Hhi.
  rewrite Hlo, Hhi. simpl. eauto.
Qed.

Lemma bind_param_int (z : Z) : int64 z -> bind_param (JInt z) = Ok (SqlInt z).
Proof.
  intros [Hlo Hhi]. simpl.
  apply Z.leb_le in Hlo. apply Z.ltb_lt in Hhi.
  now rewrite Hlo, Hhi.
Qed.

Lemma insert_wait_time_missing_ride db ride_id wait_time is_open t lu db' :
  mem ride_id (map rides_id (rides db)) = false ->
  insert_wait_time (JInt ride_id) wait_time is_open t lu db <> Ok db'.
Proof.
  intros Hmissing. unfold insert_wait_time.
  destruct (schema db); [|discriminate].
  destruct (bind_param (JInt ride_id)) as [rid|] eqn:Hrid; [|discriminate].
  assert (rid = SqlInt ride_id) as ->.
  { simpl in Hrid. destruct (_ && _); congruence. }
  simpl.
  destruct (bind_param wait_time); [|discriminate]. simpl.
  destruct (bind_param is_open) as [io|]; [|discriminate]. simpl.
  destruct (bind_param lu); [|discriminate]. simpl.
  rewrite Hmissing. destruct (is_null io); discriminate.
Qed.

(** C9: [insert_wait_time] for a ride id without a row in [rides] raises
    the [IntegrityError] of the foreign key and writes nothing; with any
    arguments it never returns normally.  No function of the collector
    catches the exception: raised inside the loop body it leaves
    [collect_park], [collect_all_parks] and [main], no store call follows it,
    and the process ends with a non-zero exit status. *)
Theorem missing_ride_violation_propagates :
  (forall db ride_id wait_time is_open t api_last_updated,
     schema db = true ->
     int64 ride_id ->
     (forall n, wait_time = Some n -> int64 n) ->
     mem ride_id (map rides_id (rides db)) = false ->
     insert_wait_time (JInt ride_id) (py_opt_int wait_time) (JBool is_open) t
       (py_opt_str api_last_updated) db
     = Raise (IntegrityError ForeignKey)) /\
  (forall db ride_id wait_time is_open t api_last_updated db',
     mem ride_id (map rides_id (rides db)) = false ->
     insert_wait_time (JInt ride_id) wait_time is_open t api_last_updated db
     <> Ok db') /\
  (forall park_id t r n w wa wb e,
     (if is_none (r_land_id r) then ret tt
      else exec_insert_land (r_land_id r) (JInt park_id) (r_land_name r)) w
     = (wa, Ok tt) ->
     exec_insert_ride (r_id r) (JInt park_id) (r_name r) (r_land_id r) wa
     = (wb, Ok tt) ->
     insert_wait_time (r_id r) (r_wait_time r) (r_is_open r) t
       (r_last_updated r) (w_db wb) = Raise e ->
     collect_ride park_id t r n w
     = ({| w_db := w_db wb;
           w_trace := w_trace wb
                      ++ [Store (InsertWaitTime (r_id r) (r_wait_time r)
                                   (r_is_open r) t (r_last_updated r))] |},
        Raise e)) /\
  (forall net park_id park_name t w w1 data w2 rs1 r rs2 w3 n w4 e,
     fetch_park_data net park_id w = (w1, Ok data) ->
     is_none data = false ->
     exec_insert_park (JInt park_id) (JStr park_name) w1 = (w2, Ok tt) ->
     parse_rides data park_id = Ok (rs1 ++ r :: rs2) ->
     for_each rs1 (collect_ride park_id t) 0 w2 = (w3, Ok n) ->
     collect_ride park_id t r n w3 = (w4, Raise e) ->
     collect_park net park_id park_name t w = (w4, Raise e)) /\
  (forall net now ps1 park_id park_name ps2 w w0 w1 res1 w2 e,
     PARKS = ps1 ++ (park_id, park_name) :: ps2 ->
     store InitDatabase init_database w = (w0, Ok tt) ->
     collect_parks net ps1 now ∅ w0 = (w1, Ok res1) ->
     collect_park net park_id park_name now w1 = (w2, Raise e) ->
     collect_all_parks net now w = (w2, Raise e) /\
     main net now false w = (w2, Raise e) /\
     (forall c, e = IntegrityError c ->
                exit_status (snd (main net now false w)) = 1)).
Proof.
  repeat apply conj.
  - intros db ride_id wait_time is_open t lu Hschema Hid Hwt Hmissing.
    unfold insert_wait_time. rewrite Hschema, (bind_param_int _ Hid). simpl.
    destruct (bind_param_opt_int wait_time Hwt) as [v ->]. simpl.
    destruct lu; simpl; now rewrite Hmissing.
  - intros. now apply insert_wait_time_missing_ride.
  - intros park_id t r n w wa wb e Hland Hride Hraise.
    unfold collect_ride.
    rewrite (bind_run_ok _ _ _ _ _ Hland), (bind_run_ok _ _ _ _ _ Hride).
    apply bind_run_raise.
    unfold exec_insert_wait_time, store. now rewrite Hraise.
  - intros net park_id park_name t w w1 data w2 rs1 r rs2 w3 n w4 e
      Hfetch Hdata Hpark Hparse Hloop Hride.
    unfold collect_park.
    rewrite (bind_run_ok _ _ _ _ _ Hfetch), Hdata.
    rewrite (bind_run_ok _ _ _ _ _ Hpark).
    unfold bind at 1, lift. rewrite Hparse.
    rewrite for_each_app, (bind_run_ok _ _ _ _ _ Hloop). simpl.
    now apply bind_run_raise.
  - assert (Hall : forall net now ps1 park_id park_name ps2 w w0 w1 res1 w2 e,
              PARKS = ps1 ++ (park_id, park_name) :: ps2 ->
              store InitDatabase init_database w = (w0, Ok tt) ->
              collect_parks net ps1 now ∅ w0 = (w1, Ok res1) ->
              collect_park net park_id park_name now w1 = (w2, Raise e) ->
              collect_all_parks net now w = (w2, Raise e)).
    { intros net now ps1 park_id park_name ps2 w w0 w1 res1 w2 e
        HP Hinit Hloop Hpark.
      unfold collect_all_parks. rewrite (bind_run_ok _ _ _ _ _ Hinit), HP.
      unfold collect_parks in *.
      rewrite for_each_app, (bind_run_ok _ _ _ _ _ Hloop). simpl.
      apply bind_run_raise. now apply bind_run_raise. }
    intros net now ps1 park_id park_name ps2 w w0 w1 res1 w2 e
      HP Hinit Hloop Hpark.
    pose proof (Hall _ _ _ _ _ _ _ _ _ _ _ _ HP Hinit Hloop Hpark) as Hrun.
    assert (Hmain : main net now false w = (w2, Raise e))
      by (unfold main; now apply bind_run_raise).
    split; [exact Hrun|]. split; [exact Hmain|].
    intros c ->. now rewrite Hmain.
Qed.

Lemma missing_ride_violation_propagates_witness :
  let net := net_serving response_ride_without_name in
  let t := monday_afternoon in
  let db := w_db ready_world in
  let r := record_of 64 JNull JNull (obj [("id", JInt 7)]) in
  let w0 := {| w_db := db; w_trace := [Store InitDatabase] |} in
  let w1 := fst (fetch_park_data net 64 w0) in
  let w2 := fst (exec_insert_park (JInt 64) (JStr "Islands of Adventure") w1) in
  let wb := fst (exec_insert_ride (r_id r) (JInt 64) (r_name r) (r_land_id r)
                   w2) in
  let w4 := {| w_db := w_db wb;
               w_trace := w_trace wb
                          ++ [Store (InsertWaitTime (r_id r) (r_wait_time r)
                                       (r_is_open r) t (r_last_updated r))] |} in
  (schema db = true /\ int64 7 /\
   mem 7 (map rides_id (rides db)) = false /\
   insert_wait_time (JInt 7) (py_opt_int None) (JBool false) t
     (py_opt_str None) db = Raise (IntegrityError ForeignKey)) /\
  rides (w_db w4) = [] /\
  wait_times (w_db w4) = [] /\
  collect_all_parks net t fresh_world = (w4, Raise (IntegrityError ForeignKey)) /\
  main net t false fresh_world = (w4, Raise (IntegrityError ForeignKey)) /\
  exit_status (snd (main net t false fresh_world)) = 1.
Proof.
  intros net t db r w0 w1 w2 wb w4.
  destruct missing_ride_violation_propagates as (Ha & _ & Hb1 & Hb2 & Hb3).
  assert (Hid : int64 7) by (unfold int64; lia).
  split.
  - split; [reflexivity|]. split; [exact Hid|]. split; [reflexivity|].
    apply (Ha db 7 None false t None); [reflexivity | exact Hid | | reflexivity].
    intros n Hn. discriminate.
  - assert (Hride : collect_ride 64 t r 0 w2
                    = (w4, Raise (IntegrityError ForeignKey))).
    { apply (Hb1 64 t r 0 w2 w2 wb (IntegrityError ForeignKey));
        vm_compute; reflexivity. }
    assert (Hpark : collect_park net 64 "Islands of Adventure" t w0
                    = (w4, Raise (IntegrityError ForeignKey))).
    { apply (Hb2 net 64 "Islands of Adventure" t w0 w1
               response_ride_without_name w2 [] r [] w2 0 w4
               (IntegrityError ForeignKey));
        try exact Hride; vm_compute; reflexivity. }
    destruct (Hb3 net t [] 64 "Islands of Adventure"
                [(65, "Universal Studios Florida"); (334, "Epic Universe")]
                fresh_world w0 w0 ∅ w4 (IntegrityError ForeignKey))
      as (Hrun & Hmain & Hexit);
      [reflexivity | reflexivity | reflexivity | exact Hpark |].
    split; [vm_compute; reflexivity|]. split; [vm_compute; reflexivity|].
    split; [exact Hrun|]. split; [exact Hmain|].
    exact (Hexit ForeignKey eq_refl).
Defined.

(** ** Upserts *)

Lemma filter_absent {A} (key : A -> Z) (id : Z) (l : list A) :
  mem id (map key l) = false ->
  List.filter (fun row => key row =? id) l = [].
Proof.
  unfold mem. induction l as [|x l IH]; simpl; [reflexivity|].
  intros H. apply orb_false_iff in H as [Hx Hl].
  rewrite Z.eqb_sym, Hx. now apply IH.
Qed.

Lemma mem_snoc (id : Z) (ids : list Z) : mem id (ids ++ [id]) = true.
Proof.
  unfold mem. rewrite existsb_app. simpl.
  now rewrite Z.eqb_refl, orb_true_r.
Qed.

Lemma filter_snoc_fresh {A} (key : A -> Z) (id : Z) (l : list A) (row : A) :
  mem id (map key l) = false ->
  key row = id ->
  List.filter (fun row => key row =? id) (l ++ [row]) = [row].
Proof.
  intros Hfresh Hkey. rewrite List.filter_app, filter_absent by assumption.
  simpl. now rewrite Hkey, Z.eqb_refl.
Qed.

(** C3: upserting a park, a land or a ride whose id has no row yet (and
    whose park and land exist) inserts it; a second upsert with the same id
    returns without an error and leaves the database as it was, whatever
    attribute values it is given, so the table holds exactly one row for the
    id, with the values of the first call. *)
Theorem upsert_is_idempotent :
  (forall db id name name',
     schema db = true -> int64 id ->
     mem id (map parks_id (parks db)) = false ->
     exists db1,
       insert_park (JInt id) (JStr name) db = Ok db1 /\
       insert_park (JInt id) (JStr name') db1 = Ok db1 /\
       List.filter (fun row => parks_id row =? id) (parks db1)
       = [{| parks_id := id; parks_name := SqlText name |}]) /\
  (forall db id park_id name park_id' name',
     schema db = true -> int64 id -> int64 park_id -> int64 park_id' ->
     mem id (map lands_id (lands db)) = false ->
     mem park_id (map parks_id (parks db)) = true ->
     exists db1,
       insert_land (JInt id) (JInt park_id) (JStr name) db = Ok db1 /\
       insert_land (JInt id) (JInt park_id') (JStr name') db1 = Ok db1 /\
       List.filter (fun row => lands_id row =? id) (lands db1)
       = [{| lands_id := id; lands_park_id := SqlInt park_id;
             lands_name := SqlText name |}]) /\
  (forall db id park_id name land_id park_id' name' land_id',
     schema db = true -> int64 id -> int64 park_id -> int64 park_id' ->
     (forall l, land_id = Some l ->
                int64 l /\ mem l (map lands_id (lands db)) = true) ->
     (forall l, land_id' = Some l -> int64 l) ->
     mem id (map rides_id (rides db)) = false ->
     mem park_id (map parks_id (parks db)) = true ->
     exists db1,
       insert_ride (JInt id) (JInt park_id) (JStr name) (py_opt_int land_id) db
       = Ok db1 /\
       insert_ride (JInt id) (JInt park_id') (JStr name') (py_opt_int land_id')
         db1 = Ok db1 /\
       List.filter (fun row => rides_id row =? id) (rides db1)
       = [{| rides_id := id;
             rides_land_id := match land_id with
                              | Some l => SqlInt l
                              | None => SqlNull
                              end;
             rides_park_id := SqlInt park_id;
             rides_name := SqlText name |}]).
Proof.
  repeat apply conj.
  - intros db id name name' Hschema Hid Hfresh.
    unfold insert_park. rewrite Hschema, (bind_param_int _ Hid). simpl.
    rewrite Hfresh. eexists. split; [reflexivity|]. simpl.
    rewrite ?Hschema, map_app, mem_snoc. split; [reflexivity|].
    now apply filter_snoc_fresh.
  - intros db id park_id name park_id' name' Hschema Hid Hpark Hpark' Hfresh
      Hparent.
    unfold insert_land.
    rewrite Hschema, (bind_param_int _ Hid), (bind_param_int _ Hpark),
      (bind_param_int _ Hpark').
    simpl. rewrite Hfresh, Hparent.
    eexists. split; [reflexivity|]. simpl.
    rewrite ?Hschema, map_app, mem_snoc. split; [reflexivity|].
    now apply filter_snoc_fresh.
  - intros db id park_id name land_id park_id' name' land_id' Hschema Hid
      Hpark Hpark' Hland Hland' Hfresh Hparent.
    unfold insert_ride.
    rewrite Hschema, (bind_param_int _ Hid), (bind_param_int _ Hpark),
      (bind_param_int _ Hpark').
    assert (Hl : exists v, bind_param (py_opt_int land_id) = Ok v /\
                           references v (map lands_id (lands db)) = true /\
                           v = match land_id with
                               | Some l => SqlInt l
                               | None => SqlNull
                               end).
    { destruct land_id as [l|]; [|eexists; repeat split].
      destruct (Hland l eq_refl) as [Hl Hin].
      exists (SqlInt l). simpl py_opt_int. rewrite (bind_param_int _ Hl).
      repeat split. exact Hin. }
    destruct Hl as (v & -> & Href & ->).
    assert (Hl' : exists v', bind_param (py_opt_int land_id') = Ok v').
    { apply bind_param_opt_int. intros n Hn. now apply Hland'. }
    destruct Hl' as (v' & ->).
    simpl. rewrite Hfresh, Href, Hparent. simpl.
    eexists. split; [reflexivity|]. simpl.
    rewrite ?Hschema, map_app, mem_snoc. split; [reflexivity|].
    now apply filter_snoc_fresh.
Qed.

Lemma upsert_is_idempotent_witness :
  let db := database_with_ride in
  (schema db = true /\ int64 65 /\ int64 101 /\ int64 1002 /\ int64 64 /\
   int64 999 /\
   mem 65 (map parks_id (parks db)) = false /\
   mem 101 (map lands_id (lands db)) = false /\
   mem 1002 (map rides_id (rides db)) = false /\
   mem 64 (map parks_id (parks db)) = true /\
   mem 100 (map lands_id (lands db)) = true) /\
  (exists db1,
     insert_park (JInt 65) (JStr "Universal Studios Florida") db = Ok db1 /\
     insert_park (JInt 65) (JStr "Renamed") db1 = Ok db1 /\
     List.filter (fun row => parks_id row =? 65) (parks db1)
     = [{| parks_id := 65;
           parks_name := SqlText "Universal Studios Florida" |}]) /\
  (exists db1,
     insert_land (JInt 101) (JInt 64) (JStr "Jurassic Park") db = Ok db1 /\
     insert_land (JInt 101) (JInt 999) (JStr "Renamed") db1 = Ok db1 /\
     List.filter (fun row => lands_id row =? 101) (lands db1)
     = [{| lands_id := 101; lands_park_id := SqlInt 64;
           lands_name := SqlText "Jurassic Park" |}]) /\
  (exists db1,
     insert_ride (JInt 1002) (JInt 64) (JStr "Forbidden Journey")
       (py_opt_int (Some 100)) db = Ok db1 /\
     insert_ride (JInt 1002) (JInt 999) (JStr "Renamed") (py_opt_int None) db1
     = Ok db1 /\
     List.filter (fun row => rides_id row =? 1002) (rides db1)
     = [{| rides_id := 1002; rides_land_id := SqlInt 100;
           rides_park_id := SqlInt 64;
           rides_name := SqlText "Forbidden Journey" |}]).
Proof.
  intros db.
  assert (H65 : int64 65) by (unfold int64; lia).
  assert (H101 : int64 101) by (unfold int64; lia).
  assert (H1002 : int64 1002) by (unfold int64; lia).
  assert (H64 : int64 64) by (unfold int64; lia).
  assert (H999 : int64 999) by (unfold int64; lia).
  assert (H100 : int64 100) by (unfold int64; lia).
  destruct upsert_is_idempotent as (Hparks & Hlands & Hrides).
  split; [repeat split; (assumption || apply H65 || apply H101 || apply H1002
                         || apply H64 || apply H999)|].
  split; [|split].
  - apply (Hparks db 65 "Universal Studios Florida" "Renamed");
      [reflexivity | exact H65 | reflexivity].
  - apply (Hlands db 101 64 "Jurassic Park" 999 "Renamed");
      [reflexivity | exact H101 | exact H64 | exact H999 | reflexivity
      | reflexivity].
  - apply (Hrides db 1002 64 "Forbidden Journey" (Some 100) 999 "Renamed" None);
      [reflexivity | exact H1002 | exact H64 | exact H999 | | | reflexivity
      | reflexivity].
    + intros l [= <-]. split; [exact H100 | reflexivity].
    + intros l [=].
Defined.

(** ** Derived fields of a reading *)

Lemma weekday_range (t : datetime) : 0 <= weekday t <= 6.
Proof. unfold weekday. pose proof (Z.mod_pos_bound (toordinal t + 6) 7). lia. Qed.

(** C6: the row [insert_wait_time] appends has its three derived columns
    computed from [collected_at] alone: [day_of_week] is its weekday (Monday
    is 0, Sunday is 6), [hour] is its hour (0 to 23 for a datetime), and
    [is_weekend] holds exactly when [day_of_week] is 5 or 6.  A Monday 14:30
    timestamp gives 0, 14 and false; a Saturday timestamp gives a true
    [is_weekend]. *)
Theorem insert_wait_time_derived_fields :
  (forall ride_id wait_time is_open t api_last_updated db db',
     insert_wait_time ride_id wait_time is_open t api_last_updated db = Ok db' ->
     exists row,
       wait_times db' = wait_times db ++ [row] /\
       wt_collected_at row = t /\
       wt_day_of_week row = weekday t /\
       0 <= wt_day_of_week row <= 6 /\
       wt_hour row = dt_hour t /\
       (valid_datetime t -> 0 <= wt_hour row <= 23) /\
       (wt_is_weekend row = true <->
        wt_day_of_week row = 5 \/ wt_day_of_week row = 6) /\
       (weekday t = 0 -> dt_hour t = 14 ->
        wt_day_of_week row = 0 /\ wt_hour row = 14 /\
        wt_is_weekend row = false) /\
       (weekday t = 5 -> wt_is_weekend row = true)) /\
  weekday monday_afternoon = 0 /\
  dt_hour monday_afternoon = 14 /\
  weekday saturday_noon = 5.
Proof.
  split; [|repeat split].
  intros ride_id wait_time is_open t lu db db'.
  unfold insert_wait_time.
  destruct (schema db); [|discriminate].
  destruct (bind_param ride_id) as [rid|]; [|discriminate]; simpl.
  destruct (bind_param wait_time) as [wt|]; [|discriminate]; simpl.
  destruct (bind_param is_open) as [io|]; [|discriminate]; simpl.
  destruct (bind_param lu) as [lu'|]; [|discriminate]; simpl.
  destruct (is_null rid || is_null io); [discriminate|].
  destruct (references rid _); [|discriminate].
  intros [= <-]. eexists. split; [reflexivity|]. simpl.
  pose proof (weekday_range t) as Hrange.
  repeat split; try lia; unfold valid_datetime in *; lia.
Qed.

Lemma insert_wait_time_derived_fields_witness :
  let db' :=
    {| schema := true; parks := parks database_with_ride;
       lands := lands database_with_ride; rides := rides database_with_ride;
       wait_times :=
         [{| wt_id := 1; wt_ride_id := SqlInt 1001; wt_wait_time := SqlInt 120;
             wt_is_open := SqlInt 1; wt_collected_at := monday_afternoon;
             wt_api_last_updated := SqlText "2025-12-29T14:30:00.000Z";
             wt_day_of_week := 0; wt_hour := 14; wt_is_weekend := false |}] |} in
  insert_wait_time (JInt 1001) (JInt 120) (JBool true) monday_afternoon
    (JStr "2025-12-29T14:30:00.000Z") database_with_ride = Ok db' /\
  exists row,
    wait_times db' = wait_times database_with_ride ++ [row] /\
    wt_collected_at row = monday_afternoon /\
    wt_day_of_week row = weekday monday_afternoon /\
    0 <= wt_day_of_week row <= 6 /\
    wt_hour row = dt_hour monday_afternoon /\
    (valid_datetime monday_afternoon -> 0 <= wt_hour row <= 23) /\
    (wt_is_weekend row = true <->
     wt_day_of_week row = 5 \/ wt_day_of_week row = 6) /\
    (weekday monday_afternoon = 0 -> dt_hour monday_afternoon = 14 ->
     wt_day_of_week row = 0 /\ wt_hour row = 14 /\
     wt_is_weekend row = false) /\
    (weekday monday_afternoon = 5 -> wt_is_weekend row = true).
Proof.
  intros db'. split.
  - reflexivity.
  - apply (proj1 insert_wait_time_derived_fields (JInt 1001) (JInt 120)
             (JBool true) monday_afternoon (JStr "2025-12-29T14:30:00.000Z")
             database_with_ride db').
    reflexivity.
Defined.

(** * Further properties of the store *)

(** ** Constraints kept by every store call *)

Ltac invert_store H :=
  repeat (simpl in H;
          match type of H with
          | (if ?b then _ else _) = _ => destruct b eqn:?
          | rbind ?r _ = _ => destruct r eqn:?
          | Raise _ = Ok _ => discriminate H
          end);
  try (injection H as <-).

Lemma mem_true_iff (z : Z) (ids : list Z) : mem z ids = true <-> z ∈ ids.
Proof.
  unfold mem. rewrite existsb_exists, list_elem_of_In. split.
  - intros (x & Hin & Heq). apply Z.eqb_eq in Heq. now subst.
  - intros Hin. exists z. split; [exact Hin | apply Z.eqb_refl].
Qed.

Lemma mem_false_iff (z : Z) (ids : list Z) : mem z ids = false <-> z ∉ ids.
Proof.
  rewrite <- mem_true_iff. destruct (mem z ids); split; intuition congruence.
Qed.

Lemma mem_app (z : Z) (ids ids' : list Z) :
  mem z (ids ++ ids') = mem z ids || mem z ids'.
Proof. unfold mem. apply existsb_app. Qed.

Lemma references_app v ids ids' :
  references v ids = true -> references v (ids ++ ids') = true.
Proof.
  destruct v; simpl; try easy. intros H. now rewrite mem_app, H.
Qed.

Lemma references_snoc v ids (z : Z) :
  references v ids = true -> references v (ids ++ [z]) = true.
Proof. apply references_app. Qed.

(** The rowid picked for a row without one is above every rowid in use. *)
Lemma next_rowid_above (ids : list Z) :
  forall z, z ∈ ids -> z < next_rowid ids.
Proof.
  destruct ids as [|z0 zs]; intros z Hz; [inversion Hz|]. simpl.
  assert (H : forall y, y ∈ z0 :: zs -> y <= fold_right Z.max z0 zs).
  { clear. intros y Hy. apply elem_of_cons in Hy as [->|Hy].
    - induction zs as [|x zs IH]; simpl; lia.
    - induction zs as [|x zs IH]; simpl; [inversion Hy|].
      apply elem_of_cons in Hy as [->|Hy]; [lia|]. specialize (IH Hy). lia. }
  specialize (H z Hz). lia.
Qed.

Lemma next_rowid_fresh (ids : list Z) : next_rowid ids ∉ ids.
Proof. intros H. apply next_rowid_above in H. lia. Qed.

Lemma rowid_of_fresh v ids rowid :
  rowid_of v ids = Ok rowid -> mem rowid ids = false -> rowid ∉ ids.
Proof. intros _. apply mem_false_iff. Qed.

Lemma NoDup_snoc_fresh (ids : list Z) (z : Z) :
  NoDup ids -> z ∉ ids -> NoDup (ids ++ [z]).
Proof.
  intros Hnd Hfresh. apply NoDup_app. split; [exact Hnd|]. split.
  - intros x Hx Hin. apply list_elem_of_singleton in Hin. now subst.
  - apply NoDup_singleton.
Qed.

Lemma run_call_keeps_keys_unique (call : store_call) (db db' : database) :
  run_call call db = Ok db' -> unique_keys db -> unique_keys db'.
Proof.
  intros H (Hp & Hl & Hr & Hw).
  destruct call; simpl in H;
    unfold init_database, insert_park, insert_land, insert_ride,
      insert_wait_time, get_ride_count, get_wait_time_count in H;
    invert_store H; unfold unique_keys; simpl;
    repeat split; try assumption;
    rewrite map_app; apply NoDup_snoc_fresh; try assumption;
    try apply next_rowid_fresh;
    match goal with
    | Hm : _ || _ = false |- _ =>
        repeat (apply orb_false_iff in Hm as [Hm ?]);
        apply mem_false_iff; assumption
    end.
Qed.

Lemma Forall_references_snoc {A} (col : A -> sqlval) (rows : list A)
    (ids : list Z) (z : Z) :
  Forall (fun r => references (col r) ids = true) rows ->
  Forall (fun r => references (col r) (ids ++ [z]) = true) rows.
Proof.
  intros H. eapply Forall_impl; [exact H|].
  intros r Hr. now apply references_snoc.
Qed.

Lemma run_call_keeps_foreign_keys (call : store_call) (db db' : database) :
  run_call call db = Ok db' -> foreign_keys_hold db -> foreign_keys_hold db'.
Proof.
  intros H (Hl & Hr & Hw).
  destruct call; simpl in H;
    unfold init_database, insert_park, insert_land, insert_ride,
      insert_wait_time, get_ride_count, get_wait_time_count in H;
    invert_store H; unfold foreign_keys_hold; simpl;
    try (repeat split; assumption).
  - (* a park was appended *)
    rewrite map_app. simpl. repeat split.
    + now apply Forall_references_snoc.
    + eapply Forall_impl; [exact Hr|]. intros r [H1 H2]. split; [exact H1|].
      now apply references_snoc.
    + exact Hw.
  - (* a land was appended *)
    rewrite map_app. simpl. repeat split.
    + apply Forall_app. split; [exact Hl|]. now repeat constructor.
    + eapply Forall_impl; [exact Hr|]. intros r [H1 H2]. split; [|exact H2].
      now apply references_snoc.
    + exact Hw.
  - (* a ride was appended *)
    rewrite map_app. simpl.
    match goal with
    | Hfk : _ && _ = true |- _ => apply andb_true_iff in Hfk as [Hfk1 Hfk2]
    end.
    repeat split.
    + exact Hl.
    + apply Forall_app. split; [exact Hr|]. now repeat constructor.
    + now apply Forall_references_snoc.
  - (* a reading was appended *)
    repeat split; try assumption.
    apply Forall_app. split; [exact Hw|]. now repeat constructor.
Qed.

Lemma database_with_ride_foreign_keys : foreign_keys_hold database_with_ride.
Proof. repeat split; simpl; repeat constructor. Qed.

Lemma run_call_keeps_not_null (call : store_call) (db db' : database) :
  run_call call db = Ok db' -> not_null_holds db -> not_null_holds db'.
Proof.
  intros H (Hp & Hl & Hr & Hw).
  destruct call; simpl in H;
    unfold init_database, insert_park, insert_land, insert_ride,
      insert_wait_time, get_ride_count, get_wait_time_count in H;
    invert_store H; unfold not_null_holds; simpl;
    repeat split; try assumption;
    (apply Forall_app; split; [assumption|]);
    repeat constructor; simpl;
    match goal with
    | Hm : _ || _ = false |- _ =>
        repeat (apply orb_false_iff in Hm as [Hm ?]); assumption
    end.
Qed.

Lemma run_call_only_appends (call : store_call) (db db' : database) :
  run_call call db = Ok db' -> grown_from db db'.
Proof.
  intros H.
  destruct call; simpl in H;
    unfold init_database, insert_park, insert_land, insert_ride,
      insert_wait_time, get_ride_count, get_wait_time_count in H;
    invert_store H; unfold grown_from; simpl;
    repeat split; try reflexivity; try congruence;
    try (now apply prefix_app_r).
Qed.

(** X1: whatever its arguments, a store call that returns leaves the primary
    keys of every table unique, also when SQLite picks the rowid itself. *)
Theorem store_call_keeps_keys_unique (call : store_call) (db db' : database) :
  run_call call db = Ok db' -> unique_keys db -> unique_keys db'.
Proof. apply run_call_keeps_keys_unique. Qed.

Lemma store_call_keeps_keys_unique_witness :
  let call := InsertPark JNull (JStr "Park without an id") in
  let db' :=
    {| schema := true;
       parks := parks database_with_ride
                ++ [{| parks_id := 65;
                       parks_name := SqlText "Park without an id" |}];
       lands := lands database_with_ride; rides := rides database_with_ride;
       wait_times := [] |} in
  run_call call database_with_ride = Ok db' /\
  unique_keys database_with_ride /\
  unique_keys db'.
Proof.
  intros call db'.
  assert (Hrun : run_call call database_with_ride = Ok db') by reflexivity.
  assert (Hinv : unique_keys database_with_ride).
  { repeat split; simpl; repeat constructor; rewrite list_elem_of_In; simpl;
      tauto. }
  split; [exact Hrun|]. split; [exact Hinv|].
  exact (store_call_keeps_keys_unique call database_with_ride db' Hrun Hinv).
Defined.

(** X2: whatever its arguments, a store call that returns leaves every
    foreign key satisfied: each land names a stored park, each ride a stored
    park and no land or a stored one, each reading a stored ride. *)
Theorem store_call_keeps_foreign_keys (call : store_call) (db db' : database) :
  run_call call db = Ok db' -> foreign_keys_hold db -> foreign_keys_hold db'.
Proof. apply run_call_keeps_foreign_keys. Qed.

Lemma store_call_keeps_foreign_keys_witness :
  let call := InsertWaitTime (JInt 1001) JNull (JBool false) saturday_noon
                JNull in
  exists db',
    run_call call database_with_ride = Ok db' /\
    length (wait_times db') = 1%nat /\
    foreign_keys_hold database_with_ride /\
    foreign_keys_hold db'.
Proof.
  intros call. eexists. split; [reflexivity|]. split; [reflexivity|].
  split; [exact database_with_ride_foreign_keys|].
  apply (store_call_keeps_foreign_keys call database_with_ride);
    [reflexivity | exact database_with_ride_foreign_keys].
Defined.

(** X3: whatever its arguments, a store call that returns leaves no NULL in
    a [NOT NULL] column: every stored park, land and ride has a name, every
    land and ride a park, every reading a ride and an open flag. *)
Theorem store_call_keeps_not_null (call : store_call) (db db' : database) :
  run_call call db = Ok db' -> not_null_holds db -> not_null_holds db'.
Proof. apply run_call_keeps_not_null. Qed.

Lemma store_call_keeps_not_null_witness :
  let call := InsertRide (JInt 1002) (JInt 64) JNull JNull in
  run_call call database_with_ride = Ok database_with_ride /\
  not_null_holds database_with_ride /\
  not_null_holds database_with_ride.
Proof.
  intros call.
  assert (Hinv : not_null_holds database_with_ride)
    by (repeat split; simpl; repeat constructor).
  split; [reflexivity|]. split; [exact Hinv|].
  apply (store_call_keeps_not_null call database_with_ride);
    [reflexivity | exact Hinv].
Defined.

Lemma grown_from_refl db : grown_from db db.
Proof. repeat split; auto. Qed.

Lemma grown_from_trans db1 db2 db3 :
  grown_from db1 db2 -> grown_from db2 db3 -> grown_from db1 db3.
Proof.
  intros (Hs & Hp & Hl & Hr & Hw) (Hs' & Hp' & Hl' & Hr' & Hw').
  repeat split; [tauto | | | |]; etrans; eassumption.
Qed.

(** X4: a store call that returns never deletes, reorders or changes a
    stored row: each table keeps its rows and can only have rows added after
    them, and a created schema stays created. *)
Theorem store_call_only_appends (call : store_call) (db db' : database) :
  run_call call db = Ok db' -> grown_from db db'.
Proof. apply run_call_only_appends. Qed.

Lemma store_call_only_appends_witness :
  let call := InsertLand (JInt 101) (JInt 64) (JStr "Jurassic Park") in
  exists db',
    run_call call database_with_ride = Ok db' /\
    length (lands db') = 2%nat /\
    grown_from database_with_ride db'.
Proof.
  intros call. eexists. split; [reflexivity|]. split; [reflexivity|].
  apply (store_call_only_appends call database_with_ride). reflexivity.
Defined.

(** ** The database after a run *)

Lemma store_calls_app (evs evs' : list event) :
  store_calls (evs ++ evs') = store_calls evs ++ store_calls evs'.
Proof. unfold store_calls. apply flat_map_app. Qed.

Lemma run_calls_app (calls calls' : list store_call) (db : database) :
  run_calls (calls ++ calls') db = run_calls calls' (run_calls calls db).
Proof.
  revert db. induction calls as [|c calls IH]; intros db; simpl;
    [reflexivity | apply IH].
Qed.

Section Conforming.

Variable Q : event -> Prop.

Lemma conforms_ret {A} (a : A) : conforms Q (ret a).
Proof.
  intros w w' r [= <- <-]. exists []. rewrite app_nil_r.
  repeat split. constructor.
Qed.

Lemma conforms_raise {A} (e : exn) : conforms Q (@raise A e).
Proof.
  intros w w' r [= <- <-]. exists []. rewrite app_nil_r.
  repeat split. constructor.
Qed.

Lemma conforms_lift {A} (x : result A) : conforms Q (lift x).
Proof.
  intros w w' r [= <- <-]. exists []. rewrite app_nil_r.
  repeat split. constructor.
Qed.

Lemma conforms_emit (ev : event) :
  (forall call, ev <> Store call) -> Q ev -> conforms Q (emit ev).
Proof.
  intros Hev HQ w w' r [= <- <-]. exists [ev]. simpl.
  repeat split; [|now repeat constructor].
  destruct ev; try reflexivity. now destruct (Hev call).
Qed.

Lemma conforms_store (call : store_call) :
  Q (Store call) -> conforms Q (store call (run_call call)).
Proof.
  intros HQ w w' r. unfold store. intros H.
  exists [Store call]. simpl.
  destruct (run_call call (w_db w)); injection H as <- <-;
    repeat split; now repeat constructor.
Qed.

Lemma conforms_query (call : store_call) (op : database -> result Z) :
  (forall db, run_call call db = rbind (op db) (fun _ => Ok db)) ->
  Q (Store call) -> conforms Q (query call op).
Proof.
  intros Hcall HQ w w' r [= <- <-]. exists [Store call]. simpl.
  rewrite Hcall. repeat split; [|now repeat constructor].
  now destruct (op (w_db w)).
Qed.

Lemma conforms_bind {A B} (m : M A) (k : A -> M B) :
  conforms Q m -> (forall a, conforms Q (k a)) -> conforms Q (bind m k).
Proof.
  intros Hm Hk w w' r H.
  apply bind_inv in H as [(e & H & ->)|(a & w1 & H & Hka)].
  - exact (Hm _ _ _ H).
  - destruct (Hm _ _ _ H) as (evs1 & Ht1 & Hd1 & HQ1).
    destruct (Hk a _ _ _ Hka) as (evs2 & Ht2 & Hd2 & HQ2).
    exists (evs1 ++ evs2). rewrite Ht2, Ht1, Hd2, Hd1.
    rewrite store_calls_app, run_calls_app, app_assoc.
    repeat split. now apply Forall_app.
Qed.

Lemma conforms_for_each {A S} (body : A -> S -> M S) (xs : list A) :
  (forall x s, In x xs -> conforms Q (body x s)) ->
  forall s, conforms Q (for_each xs body s).
Proof.
  induction xs as [|x xs IH]; intros Hbody s; simpl.
  - apply conforms_ret.
  - apply conforms_bind; [apply Hbody; now left|].
    apply IH. intros y s' Hy. apply Hbody. now right.
Qed.

End Conforming.

Lemma fetch_attempts_conforms Q net park_id attempts :
  Q (Request park_id) -> (forall s, Q (Sleep s)) ->
  conforms Q (fetch_attempts net park_id attempts).
Proof.
  intros Hreq Hsleep. induction attempts as [|attempt rest IH]; simpl.
  - apply conforms_ret.
  - apply conforms_bind; [apply conforms_emit; [discriminate | exact Hreq]|].
    intros _.
    destruct (net park_id attempt); try apply conforms_ret;
      (apply conforms_bind; [|intros _; exact IH]);
      (destruct (_ <? _)%nat;
       [apply conforms_emit; [discriminate | apply Hsleep]
       | apply conforms_ret]).
Qed.

(** Every reading [collect_park] records is recorded with the timestamp it
    was given, and its requests go to its park. *)
Lemma collect_park_conforms net park_id park_name now :
  In park_id (map fst PARKS) ->
  conforms (run_event now) (collect_park net park_id park_name now).
Proof.
  intros Hpark. unfold collect_park.
  apply conforms_bind.
  - apply fetch_attempts_conforms; [exact Hpark | intros s; exact I].
  - intros data. destruct (is_none data); [apply conforms_ret|].
    apply conforms_bind.
    + apply (conforms_store _ (InsertPark _ _)). exact I.
    + intros _. apply conforms_bind; [apply conforms_lift|].
      intros rides. apply conforms_for_each. intros ride n _.
      unfold collect_ride.
      apply conforms_bind.
      * destruct (is_none (r_land_id ride)); [apply conforms_ret|].
        apply (conforms_store _ (InsertLand _ _ _)). exact I.
      * intros _. apply conforms_bind.
        -- apply (conforms_store _ (InsertRide _ _ _ _)). exact I.
        -- intros _. apply conforms_bind; [|intros _; apply conforms_ret].
           apply (conforms_store _ (InsertWaitTime _ _ _ _ _)). reflexivity.
Qed.

Lemma collect_all_parks_conforms net now :
  conforms (run_event now) (collect_all_parks net now).
Proof.
  unfold collect_all_parks. apply conforms_bind.
  - apply (conforms_store _ InitDatabase). exact I.
  - intros _. unfold collect_parks. apply conforms_for_each.
    intros [park_id park_name] results Hin.
    apply conforms_bind; [|intros r; apply conforms_ret].
    apply collect_park_conforms.
    apply (in_map fst PARKS (park_id, park_name)). exact Hin.
Qed.

Lemma check_status_conforms Q :
  Q (Store InitDatabase) -> Q (Store GetRideCount) ->
  Q (Store GetWaitTimeCount) -> (forall a b, Q (Print a b)) ->
  conforms Q check_status.
Proof.
  intros Hinit Hrides Hwaits Hprint. unfold check_status. apply conforms_bind.
  - apply (conforms_store _ InitDatabase). exact Hinit.
  - intros _. apply conforms_bind.
    + apply conforms_query; [reflexivity | exact Hrides].
    + intros ride_count. apply conforms_bind.
      * apply conforms_query; [reflexivity | exact Hwaits].
      * intros wait_time_count.
        apply conforms_emit; [discriminate | apply Hprint].
Qed.

Lemma main_conforms net now check :
  conforms (run_event now) (main net now check).
Proof.
  unfold main. destruct check.
  - apply check_status_conforms; intros; exact I.
  - apply conforms_bind; [apply collect_all_parks_conforms|].
    intros results.
    destruct (any_negative results); [apply conforms_raise | apply conforms_ret].
Qed.

Lemma run_calls_keeps (P : database -> Prop) :
  (forall call db db', run_call call db = Ok db' -> P db -> P db') ->
  forall calls db, P db -> P (run_calls calls db).
Proof.
  intros Hstep. induction calls as [|call calls IH]; intros db HP; simpl;
    [exact HP|].
  apply IH. destruct (run_call call db) eqn:Hcall; [|exact HP].
  exact (Hstep _ _ _ Hcall HP).
Qed.

Lemma run_calls_grown calls :
  forall db, grown_from db (run_calls calls db).
Proof.
  induction calls as [|call calls IH]; intros db; simpl;
    [apply grown_from_refl|].
  destruct (run_call call db) eqn:Hcall; [|apply IH].
  eapply grown_from_trans; [|apply IH].
  exact (run_call_only_appends _ _ _ Hcall).
Qed.

(** X5: however a run of [main] ends (it returns, exits with a failure, or
    is cut short by an exception), with or without [--check] and whatever the
    network answers, the database it leaves still holds every row it held,
    unchanged, and still has unique keys, satisfied foreign keys and no NULL
    in a [NOT NULL] column if it had them before. *)
Theorem run_keeps_database_consistent (net : Z -> nat -> http_outcome)
    (now : datetime) (check : bool) (w w' : world) (r : result unit) :
  main net now check w = (w', r) ->
  grown_from (w_db w) (w_db w') /\
  (unique_keys (w_db w) -> unique_keys (w_db w')) /\
  (foreign_keys_hold (w_db w) -> foreign_keys_hold (w_db w')) /\
  (not_null_holds (w_db w) -> not_null_holds (w_db w')).
Proof.
  intros H.
  destruct (main_conforms net now check _ _ _ H) as (evs & _ & -> & _).
  split; [apply run_calls_grown|].
  split; [|split]; apply run_calls_keeps.
  - apply run_call_keeps_keys_unique.
  - apply run_call_keeps_foreign_keys.
  - apply run_call_keeps_not_null.
Qed.

Lemma run_keeps_database_consistent_witness :
  let out := main net_first_park_down monday_afternoon false fresh_world in
  exit_status (snd out) = 1 /\
  length (wait_times (w_db (fst out))) = 6%nat /\
  grown_from (w_db fresh_world) (w_db (fst out)) /\
  (unique_keys (w_db fresh_world) -> unique_keys (w_db (fst out))) /\
  (foreign_keys_hold (w_db fresh_world) ->
   foreign_keys_hold (w_db (fst out))) /\
  (not_null_holds (w_db fresh_world) -> not_null_holds (w_db (fst out))).
Proof.
  intros out.
  split; [vm_compute; reflexivity|]. split; [vm_compute; reflexivity|].
  apply (run_keeps_database_consistent net_first_park_down monday_afternoon
           false fresh_world (fst out) (snd out)).
  apply surjective_pairing.
Defined.

(** ** The timestamp of a run *)

Lemma readings_stamped_refl t db : readings_stamped t db db.
Proof. exists []. rewrite app_nil_r. split; [reflexivity | constructor]. Qed.

Lemma readings_stamped_trans t db1 db2 db3 :
  readings_stamped t db1 db2 -> readings_stamped t db2 db3 ->
  readings_stamped t db1 db3.
Proof.
  intros (new1 & H1 & F1) (new2 & H2 & F2). exists (new1 ++ new2).
  rewrite H2, H1, app_assoc. split; [reflexivity | now apply Forall_app].
Qed.

Lemma run_call_stamped t call db db' :
  run_call call db = Ok db' ->
  run_event t (Store call) ->
  readings_stamped t db db'.
Proof.
  intros H Hev.
  destruct call; simpl in H, Hev;
    unfold init_database, insert_park, insert_land, insert_ride,
      insert_wait_time, get_ride_count, get_wait_time_count in H;
    invert_store H; unfold readings_stamped; simpl;
    first [ exists []; rewrite app_nil_r; split; [reflexivity | constructor]
          | eexists; split; [reflexivity|]; now repeat constructor ].
Qed.

Lemma run_calls_stamped t evs :
  Forall (run_event t) evs ->
  forall db, readings_stamped t db (run_calls (store_calls evs) db).
Proof.
  induction 1 as [|ev evs Hev _ IH]; intros db; simpl;
    [apply readings_stamped_refl|].
  destruct ev; simpl; try apply IH.
  destruct (run_call call db) eqn:Hcall; [|apply IH].
  eapply readings_stamped_trans; [|apply IH].
  exact (run_call_stamped _ _ _ _ Hcall Hev).
Qed.

(** X6: the readings a run of [main] adds to the database, for whichever
    parks and however the run ends, all carry the same [collected_at]: the
    timestamp taken once at the start of the run. *)
Theorem run_stamps_readings_alike (net : Z -> nat -> http_outcome)
    (now : datetime) (check : bool) (w w' : world) (r : result unit) :
  main net now check w = (w', r) ->
  exists new,
    wait_times (w_db w') = wait_times (w_db w) ++ new /\
    Forall (fun row => wt_collected_at row = now) new.
Proof.
  intros H.
  destruct (main_conforms net now check _ _ _ H) as (evs & _ & -> & HQ).
  exact (run_calls_stamped now evs HQ (w_db w)).
Qed.

Lemma run_stamps_readings_alike_witness :
  let w := {| w_db := database_with_ride; w_trace := [] |} in
  let out := main (net_serving sample_response) saturday_noon false w in
  snd out = Ok tt /\
  exists new,
    wait_times (w_db (fst out)) = wait_times (w_db w) ++ new /\
    Forall (fun row => wt_collected_at row = saturday_noon) new.
Proof.
  intros w out. split; [vm_compute; reflexivity|].
  apply (run_stamps_readings_alike (net_serving sample_response) saturday_noon
           false w (fst out) (snd out)).
  apply surjective_pairing.
Defined.

(** ** Requests and waits of a run *)

Lemma request_count_app (evs evs' : list event) :
  request_count (evs ++ evs') = (request_count evs + request_count evs')%nat.
Proof. unfold request_count. now rewrite List.filter_app, length_app. Qed.

Lemma total_sleep_app (evs evs' : list event) :
  total_sleep (evs ++ evs') = total_sleep evs + total_sleep evs'.
Proof.
  unfold total_sleep, sleeps. rewrite flat_map_app.
  induction (flat_map _ evs) as [|s ss IH]; simpl; lia.
Qed.

Lemma within_budget_idle {A} (m : M A) :
  (forall w, exists r, m w = (w, r)) -> within_budget 0 m.
Proof.
  intros Hm w w' r H. destruct (Hm w) as [r' Hr]. rewrite Hr in H.
  injection H as <- <-. exists []. rewrite app_nil_r.
  repeat split; cbn; lia.
Qed.

Lemma within_budget_weaken {A} (n n' : nat) (m : M A) :
  (n <= n')%nat -> within_budget n m -> within_budget n' m.
Proof.
  intros Hle Hm w w' r H.
  destruct (Hm _ _ _ H) as (evs & Ht & Hreq & Hsleep).
  exists evs. repeat split; try assumption; lia.
Qed.

Lemma within_budget_bind {A B} (n1 n2 : nat) (m : M A) (k : A -> M B) :
  within_budget n1 m -> (forall a, within_budget n2 (k a)) ->
  within_budget (n1 + n2) (bind m k).
Proof.
  intros Hm Hk w w' r H.
  apply bind_inv in H as [(e & H & ->)|(a & w1 & H & Hka)].
  - eapply (within_budget_weaken n1); [lia | exact Hm | exact H].
  - destruct (Hm _ _ _ H) as (evs1 & Ht1 & Hr1 & Hs1).
    destruct (Hk a _ _ _ Hka) as (evs2 & Ht2 & Hr2 & Hs2).
    exists (evs1 ++ evs2).
    rewrite Ht2, Ht1, app_assoc, request_count_app, total_sleep_app.
    repeat split; lia.
Qed.

Lemma within_budget_for_each {A S} (n : nat) (body : A -> S -> M S)
    (xs : list A) :
  (forall x s, within_budget n (body x s)) ->
  forall s, within_budget (length xs * n) (for_each xs body s).
Proof.
  intros Hbody. induction xs as [|x xs IH]; intros s; simpl.
  - apply within_budget_idle. intros w. now exists (Ok s).
  - apply within_budget_bind; [apply Hbody | exact IH].
Qed.

Lemma within_budget_store {A} (ev : event) (m : M A) :
  (forall park_id, ev <> Request park_id) -> (forall s, ev <> Sleep s) ->
  (forall w, exists db r,
     m w = ({| w_db := db; w_trace := w_trace w ++ [ev] |}, r)) ->
  within_budget 0 m.
Proof.
  intros Hreq Hsleep Hm w w' r H.
  destruct (Hm w) as (db & r' & Hr). rewrite Hr in H. injection H as <- <-.
  exists [ev]. split; [reflexivity|].
  destruct ev as [p|sec|c|a b];
    [now destruct (Hreq p) | now destruct (Hsleep sec) | |];
    cbn; split; lia.
Qed.

Lemma store_within_budget call op : within_budget 0 (store call op).
Proof.
  apply (within_budget_store (Store call)); try discriminate.
  intros w. unfold store. destruct (op (w_db w)); eauto.
Qed.

Lemma query_within_budget call op : within_budget 0 (query call op).
Proof.
  apply (within_budget_store (Store call)); try discriminate.
  intros w. unfold query. eauto.
Qed.

Lemma fetch_within_budget net park_id :
  within_budget 3 (fetch_park_data net park_id).
Proof.
  intros w w' r. unfold fetch_park_data, MAX_RETRIES. simpl.
  unfold bind, emit, ret. simpl.
  destruct (net park_id 0%nat); simpl;
    try (destruct (net park_id 1%nat); simpl;
         try (destruct (net park_id 2%nat); simpl));
    intros [= <- <-]; simpl; rewrite <- ?app_assoc; simpl;
    (eexists; split; [reflexivity|]); cbn; lia.
Qed.

Lemma collect_park_within_budget net park_id park_name t :
  within_budget 3 (collect_park net park_id park_name t).
Proof.
  unfold collect_park.
  apply (within_budget_bind 3 0); [apply fetch_within_budget|].
  intros data. destruct (is_none data).
  - apply within_budget_idle. intros w. now eexists.
  - apply (within_budget_bind 0 0); [apply store_within_budget|].
    intros _. apply (within_budget_bind 0 0).
    + apply within_budget_idle. intros w. now eexists.
    + intros rides.
      apply (within_budget_weaken (length rides * 0));
        [lia | apply within_budget_for_each].
      intros ride n. unfold collect_ride.
      apply (within_budget_bind 0 0).
      * destruct (is_none (r_land_id ride));
          [apply within_budget_idle; intros w; now eexists
          | apply store_within_budget].
      * intros _. apply (within_budget_bind 0 0); [apply store_within_budget|].
        intros _. apply (within_budget_bind 0 0); [apply store_within_budget|].
        intros _. apply within_budget_idle. intros w. now eexists.
Qed.

Lemma main_within_budget net now (check : bool) :
  within_budget (if check then 0%nat else 9%nat) (main net now check).
Proof.
  unfold main. destruct check.
  - unfold check_status.
    apply (within_budget_bind 0 0); [apply store_within_budget|].
    intros _. apply (within_budget_bind 0 0); [apply query_within_budget|].
    intros ride_count.
    apply (within_budget_bind 0 0); [apply query_within_budget|].
    intros wait_time_count.
    apply (within_budget_store (Print ride_count wait_time_count));
      try discriminate.
    intros w. unfold emit. eauto.
  - apply (within_budget_bind 9 0).
    + unfold collect_all_parks.
      apply (within_budget_bind 0 9); [apply store_within_budget|].
      intros _. unfold collect_parks.
      apply (within_budget_for_each 3 _ PARKS). intros park results.
      apply (within_budget_bind 3 0); [apply collect_park_within_budget|].
      intros records. apply within_budget_idle. intros w. now eexists.
    + intros results. apply within_budget_idle. intros w.
      destruct (any_negative results); now eexists.
Qed.

(** X7: a run of [main] without [--check] makes at most nine HTTP requests
    (three attempts for each of the three configured parks), all for
    configured parks, and sleeps at most nine seconds between attempts; with
    [--check] it makes no request and never sleeps. *)
Theorem run_request_budget (net : Z -> nat -> http_outcome) (now : datetime)
    (check : bool) (w w' : world) (r : result unit) :
  main net now check w = (w', r) ->
  exists evs,
    w_trace w' = w_trace w ++ evs /\
    (request_count evs <= (if check then 0 else 9))%nat /\
    0 <= total_sleep evs <= (if check then 0 else 9) /\
    (forall park_id, In (Request park_id) evs -> In park_id [64; 65; 334]).
Proof.
  intros H.
  destruct (main_within_budget net now check _ _ _ H)
    as (evs & Ht & Hreq & Hsleep).
  destruct (main_conforms net now check _ _ _ H) as (evs' & Ht' & _ & HQ).
  assert (evs' = evs) as ->
    by (rewrite Ht in Ht'; now apply app_inv_head in Ht').
  exists evs. split; [exact Ht|]. split; [exact Hreq|].
  split; [destruct check; exact Hsleep|].
  intros park_id Hin.
  apply list_elem_of_In in Hin.
  exact (proj1 (Forall_forall _ _) HQ _ Hin).
Qed.

Lemma run_request_budget_witness :
  let out := main net_down saturday_noon false fresh_world in
  request_count (w_trace (fst out)) = 9%nat /\
  total_sleep (w_trace (fst out)) = 9 /\
  exists evs,
    w_trace (fst out) = w_trace fresh_world ++ evs /\
    (request_count evs <= 9)%nat /\
    0 <= total_sleep evs <= 9 /\
    (forall park_id, In (Request park_id) evs -> In park_id [64; 65; 334]).
Proof.
  intros out.
  split; [vm_compute; reflexivity|]. split; [vm_compute; reflexivity|].
  apply (run_request_budget net_down saturday_noon false fresh_world (fst out)
           (snd out)).
  apply surjective_pairing.
Defined.

(** ** Exceptions of the parser *)

Lemma rbind_raise {A B} (r : result A) (k : A -> result B) (e : exn) :
  rbind r k = Raise e -> r = Raise e \/ exists a, r = Ok a /\ k a = Raise e.
Proof. destruct r as [a|e']; simpl; intros H; [eauto | left; congruence]. Qed.

Lemma for_in_raise {A S} (body : A -> S -> result S) (xs : list A) (e : exn) :
  forall s,
    for_in xs body s = Raise e ->
    exists x s', In x xs /\ body x s' = Raise e.
Proof.
  induction xs as [|x xs IH]; intros s H; simpl in H; [discriminate|].
  apply rbind_raise in H as [H|(s1 & _ & H)].
  - exists x, s. split; [now left | exact H].
  - destruct (IH _ H) as (y & s' & Hin & Hy). exists y, s'.
    split; [now right | exact Hy].
Qed.

Lemma py_get_raise v key dflt e :
  py_get v key dflt = Raise e -> e = AttributeError /\ ~ is_dict v.
Proof.
  destruct v; simpl; intros [= <-]; (split; [reflexivity|]);
    intros [m Hm]; discriminate.
Qed.

Lemma py_iter_raise v e :
  py_iter v = Raise e ->
  e = TypeError /\ (v = JNull \/ (exists b, v = JBool b) \/ exists z, v = JInt z).
Proof.
  destruct v; simpl; intros [= <-]; (split; [reflexivity|]); eauto.
Qed.

Lemma ride_entry_raise ride land_id land_name park_id e :
  ride_entry ride land_id land_name park_id = Raise e ->
  e = AttributeError /\ ~ is_dict ride.
Proof.
  destruct ride; simpl; intros [= <-]; (split; [reflexivity|]);
    intros [m Hm]; discriminate.
Qed.

Lemma parse_land_raise park_id land rides e :
  parse_land park_id land rides = Raise e ->
  e = TypeError \/ e = AttributeError.
Proof.
  unfold parse_land. intros H.
  repeat (apply rbind_raise in H as [H|(? & _ & H)];
          [first [apply py_get_raise in H as [-> _]; now right
                 | apply py_iter_raise in H as [-> _]; now left]|]).
  apply for_in_raise in H as (ride & s' & _ & H).
  apply rbind_raise in H as [H|(? & _ & H)]; [|discriminate].
  apply ride_entry_raise in H as [-> _]. now right.
Qed.

Lemma parse_rides_raise resp park_id e :
  parse_rides resp park_id = Raise e -> e = TypeError \/ e = AttributeError.
Proof.
  unfold parse_rides. intros H.
  apply rbind_raise in H as [H|(? & _ & H)];
    [apply py_get_raise in H as [-> _]; now right|].
  apply rbind_raise in H as [H|(? & _ & H)];
    [apply py_iter_raise in H as [-> _]; now left|].
  apply rbind_raise in H as [H|(? & _ & H)].
  { apply for_in_raise in H as (land & s' & _ & H).
    now apply parse_land_raise in H. }
  apply rbind_raise in H as [H|(? & _ & H)];
    [apply py_get_raise in H as [-> _]; now right|].
  apply rbind_raise in H as [H|(? & _ & H)];
    [apply py_iter_raise in H as [-> _]; now left|].
  apply for_in_raise in H as (ride & s' & _ & H).
  apply rbind_raise in H as [H|(? & _ & H)]; [|discriminate].
  apply ride_entry_raise in H as [-> _]. now right.
Qed.

Lemma for_in_app {A S} (body : A -> S -> result S) (xs ys : list A) :
  forall s, for_in (xs ++ ys) body s = rbind (for_in xs body s) (for_in ys body).
Proof.
  induction xs as [|x xs IH]; intros s; simpl; [reflexivity|].
  destruct (body x s); simpl; [apply IH | reflexivity].
Qed.

Lemma parse_land_not_dict park_id land rides :
  ~ is_dict land -> parse_land park_id land rides = Raise AttributeError.
Proof.
  intros Hnot. destruct land; try reflexivity.
  destruct Hnot. now eexists.
Qed.

(** X8: [parse_rides] raises nothing but [TypeError] and [AttributeError].
    It raises [AttributeError] when the response is not a dictionary and when
    a land of the ["lands"] array is not one, and [TypeError] when the
    ["lands"] key is present with the value null, a boolean or a number,
    although an absent key is read as an empty array. *)
Theorem parse_rides_errors (resp : json) (park_id : Z) :
  (forall e, parse_rides resp park_id = Raise e ->
             e = TypeError \/ e = AttributeError) /\
  (~ is_dict resp -> parse_rides resp park_id = Raise AttributeError) /\
  (forall m v,
     resp = JObj m -> m !! "lands" = Some v ->
     v = JNull \/ (exists b, v = JBool b) \/ (exists z, v = JInt z) ->
     parse_rides resp park_id = Raise TypeError) /\
  (forall m before land after,
     resp = JObj m ->
     m !! "lands" = Some (JArr (before ++ land :: after)) ->
     Forall rides_valid before -> ~ is_dict land ->
     parse_rides resp park_id = Raise AttributeError).
Proof.
  repeat apply conj.
  - intros e. apply parse_rides_raise.
  - intros Hnot. destruct resp; try reflexivity. destruct Hnot. now eexists.
  - intros m v -> Hlands Hv. unfold parse_rides. simpl. rewrite Hlands. simpl.
    destruct Hv as [->|[[b ->]|[z ->]]]; reflexivity.
  - intros m before land after -> Hlands Hbefore Hnot.
    unfold parse_rides. simpl. rewrite Hlands. simpl.
    rewrite for_in_app, lands_loop_total by assumption. simpl.
    now rewrite parse_land_not_dict.
Qed.

Lemma parse_rides_errors_witness :
  let resp := obj [("lands", JArr [obj [("id", JInt 1)]; JStr "land"])] in
  parse_rides (obj [("lands", JNull)]) 64 = Raise TypeError /\
  parse_rides (JArr []) 64 = Raise AttributeError /\
  parse_rides resp 64 = Raise AttributeError.
Proof.
  intros resp.
  pose proof (parse_rides_errors (obj [("lands", JNull)]) 64)
    as (_ & _ & Hnull & _).
  pose proof (parse_rides_errors (JArr []) 64) as (_ & Hlist & _).
  pose proof (parse_rides_errors resp 64) as (_ & _ & _ & Hland).
  split; [|split].
  - apply (Hnull (list_to_map [("lands", JNull)]) JNull);
      [reflexivity | reflexivity | now left].
  - apply Hlist. intros [m Hm]. discriminate.
  - apply (Hland (list_to_map
                    [("lands", JArr [obj [("id", JInt 1)]; JStr "land"])])
             [obj [("id", JInt 1)]] (JStr "land") []);
      [reflexivity | reflexivity | |].
    + repeat constructor.
    + intros [m Hm]. discriminate.
Defined.

(** ** Exceptions of a run *)

Lemma bind_param_raise v e :
  bind_param v = Raise e -> e = OverflowError \/ e = ProgrammingError.
Proof.
  destruct v; simpl; try discriminate;
    try (intros [= <-]; now right).
  destruct (_ && _); [discriminate|]. intros [= <-]. now left.
Qed.

Lemma rowid_of_raise v ids e :
  rowid_of v ids = Raise e -> e = IntegrityError DatatypeMismatch.
Proof. destruct v; simpl; try discriminate. now intros [= <-]. Qed.

Ltac split_store_goal :=
  repeat (simpl;
          match goal with
          | |- context [rbind (bind_param ?v) _] =>
              let H := fresh "Hbind" in
              destruct (bind_param v) eqn:H;
              [|apply bind_param_raise in H as [->| ->]; exact I]
          | |- context [rbind (rowid_of ?v ?ids) _] =>
              let H := fresh "Hrow" in
              destruct (rowid_of v ids) eqn:H;
              [|apply rowid_of_raise in H as ->; exact I]
          | |- context [if ?b then _ else _] => destruct b eqn:?
          end).

(** With the tables created, a store call leaves them created and raises
    nothing but data errors. *)
Lemma run_call_guarded call db :
  schema_created db ->
  match run_call call db with
  | Ok db' => schema_created db'
  | Raise e => data_error e
  end.
Proof.
  unfold schema_created. intros Hschema.
  destruct call; simpl;
    unfold init_database, insert_park, insert_land, insert_ride,
      insert_wait_time, get_ride_count, get_wait_time_count;
    rewrite ?Hschema; split_store_goal; simpl; auto.
Qed.

Section Guarding.

Variable P : database -> Prop.
Variable E : exn -> Prop.

Lemma guarded_ret {A} (a : A) : guarded P E (ret a).
Proof. intros w w' r HP [= <- <-]. split; [exact HP | discriminate]. Qed.

Lemma guarded_raise {A} (e : exn) : E e -> guarded P E (@raise A e).
Proof.
  intros He w w' r HP [= <- <-]. split; [exact HP|]. now intros e' [= <-].
Qed.

Lemma guarded_lift {A} (x : result A) :
  (forall e, x = Raise e -> E e) -> guarded P E (lift x).
Proof. intros Hx w w' r HP [= <- <-]. split; [exact HP | exact Hx]. Qed.

Lemma guarded_emit (ev : event) : guarded P E (emit ev).
Proof. intros w w' r HP [= <- <-]. split; [exact HP | discriminate]. Qed.

Lemma guarded_store (call : store_call) (op : database -> result database) :
  (forall db, P db -> match op db with
                      | Ok db' => P db'
                      | Raise e => E e
                      end) ->
  guarded P E (store call op).
Proof.
  intros Hop w w' r HP. unfold store. specialize (Hop _ HP).
  destruct (op (w_db w)); intros [= <- <-]; simpl.
  - split; [exact Hop | discriminate].
  - split; [exact HP|]. now intros e' [= <-].
Qed.

Lemma guarded_query (call : store_call) (op : database -> result Z) :
  (forall db e, P db -> op db = Raise e -> E e) ->
  guarded P E (query call op).
Proof.
  intros Hop w w' r HP [= <- <-]. simpl. split; [exact HP|].
  intros e He. exact (Hop _ _ HP He).
Qed.

Lemma guarded_bind {A B} (m : M A) (k : A -> M B) :
  guarded P E m -> (forall a, guarded P E (k a)) -> guarded P E (bind m k).
Proof.
  intros Hm Hk w w' r HP H.
  apply bind_inv in H as [(e & H & ->)|(a & w1 & H & Hka)].
  - destruct (Hm _ _ _ HP H) as [HP1 He]. split; [exact HP1|].
    intros e' [= <-]. now apply He.
  - destruct (Hm _ _ _ HP H) as [HP1 _]. exact (Hk a _ _ _ HP1 Hka).
Qed.

Lemma guarded_for_each {A S} (body : A -> S -> M S) (xs : list A) :
  (forall x s, guarded P E (body x s)) ->
  forall s, guarded P E (for_each xs body s).
Proof.
  intros Hbody. induction xs as [|x xs IH]; intros s; simpl.
  - apply guarded_ret.
  - apply guarded_bind; [apply Hbody | exact IH].
Qed.

End Guarding.

Lemma fetch_attempts_guarded P E net park_id attempts :
  guarded P E (fetch_attempts net park_id attempts).
Proof.
  induction attempts as [|attempt rest IH]; simpl.
  - apply guarded_ret.
  - apply guarded_bind; [apply guarded_emit|]. intros _.
    destruct (net park_id attempt); try apply guarded_ret;
      (apply guarded_bind; [|intros _; exact IH]);
      (destruct (_ <? _)%nat; [apply guarded_emit | apply guarded_ret]).
Qed.

Lemma store_guarded call :
  guarded schema_created data_error (store call (run_call call)).
Proof. apply guarded_store. intros db. apply run_call_guarded. Qed.

Lemma data_error_parse resp park_id e :
  parse_rides resp park_id = Raise e -> data_error e.
Proof. intros H. apply parse_rides_raise in H as [-> | ->]; exact I. Qed.

Lemma collect_park_guarded net park_id park_name t :
  guarded schema_created data_error (collect_park net park_id park_name t).
Proof.
  unfold collect_park. apply guarded_bind; [apply fetch_attempts_guarded|].
  intros data. destruct (is_none data); [apply guarded_ret|].
  apply guarded_bind; [apply (store_guarded (InsertPark _ _))|]. intros _.
  apply guarded_bind; [apply guarded_lift; apply data_error_parse|].
  intros rides. apply guarded_for_each. intros ride n. unfold collect_ride.
  apply guarded_bind.
  - destruct (is_none (r_land_id ride)); [apply guarded_ret|].
    apply (store_guarded (InsertLand _ _ _)).
  - intros _. apply guarded_bind; [apply (store_guarded (InsertRide _ _ _ _))|].
    intros _.
    apply guarded_bind; [apply (store_guarded (InsertWaitTime _ _ _ _ _))|].
    intros _. apply guarded_ret.
Qed.

Lemma collect_parks_guarded net parks t results :
  guarded schema_created data_error (collect_parks net parks t results).
Proof.
  unfold collect_parks. apply guarded_for_each. intros park res.
  apply guarded_bind; [apply collect_park_guarded|].
  intros records. apply guarded_ret.
Qed.

(** [init_database] comes first: what follows it runs with the tables
    created. *)
Lemma init_then_guarded {A} (E : exn -> Prop) (k : unit -> M A) w w' r :
  guarded schema_created E (k tt) ->
  bind (store InitDatabase init_database) k w = (w', r) ->
  schema_created (w_db w') /\ forall e, r = Raise e -> E e.
Proof.
  intros Hk H. unfold bind, store in H. simpl in H.
  refine (Hk _ _ _ _ H). reflexivity.
Qed.

Lemma collect_all_parks_guarded net now w w' r :
  collect_all_parks net now w = (w', r) ->
  schema_created (w_db w') /\ forall e, r = Raise e -> data_error e.
Proof.
  unfold collect_all_parks. apply init_then_guarded.
  apply collect_parks_guarded.
Qed.








(** ** Row counts *)

Lemma run_call_counts (call : store_call) (db db' : database) :
  run_call call db = Ok db' ->
  (length (wait_times db') = length (wait_times db) + adds_reading call
   /\ length (rides db) <= length (rides db')
      <= length (rides db) + adds_ride call
   /\ length (lands db) <= length (lands db')
      <= length (lands db) + adds_land call
   /\ length (parks db) <= length (parks db')
      <= length (parks db) + adds_park call)%nat.
Proof.
  intros H.
  destruct call; simpl in H;
    unfold init_database, insert_park, insert_land, insert_ride,
      insert_wait_time, get_ride_count, get_wait_time_count in H;
    invert_store H; simpl; rewrite ?length_app; simpl; lia.
Qed.

(** X11: a store call that returns changes the counts that
    [get_wait_time_count] and [get_ride_count] report in one way only: a
    successful [insert_wait_time] raises the reading count by exactly one (a
    reading is never merged with an earlier one) and nothing else changes it;
    [insert_ride] raises the ride count by at most one and nothing else
    changes it. *)
Theorem counts_follow_inserts (call : store_call) (db db' : database) :
  run_call call db = Ok db' ->
  (forall c, get_wait_time_count db = Ok c ->
             get_wait_time_count db' = Ok (c + Z.of_nat (adds_reading call))) /\
  (forall c, get_ride_count db = Ok c ->
             exists c', get_ride_count db' = Ok c' /\
                        c <= c' <= c + Z.of_nat (adds_ride call)).
Proof.
  intros H.
  pose proof (run_call_counts _ _ _ H) as (Hw & Hr & _).
  pose proof (run_call_only_appends _ _ _ H) as (Hs & _).
  unfold get_wait_time_count, get_ride_count. split.
  - intros c. destruct (schema db); [|discriminate]. rewrite (Hs eq_refl).
    intros [= <-]. f_equal. lia.
  - intros c. destruct (schema db); [|discriminate]. rewrite (Hs eq_refl).
    intros [= <-]. eexists. split; [reflexivity | lia].
Qed.

Lemma counts_follow_inserts_witness :
  let call := InsertWaitTime (JInt 1001) (JInt 45) (JBool true)
                saturday_noon JNull in
  exists db',
    run_call call database_with_ride = Ok db' /\
    get_wait_time_count database_with_ride = Ok 0 /\
    get_wait_time_count db' = Ok 1 /\
    get_ride_count db' = Ok 1 /\
    (forall c, get_wait_time_count database_with_ride = Ok c ->
               get_wait_time_count db' = Ok (c + Z.of_nat (adds_reading call))) /\
    (forall c, get_ride_count database_with_ride = Ok c ->
               exists c', get_ride_count db' = Ok c' /\
                          c <= c' <= c + Z.of_nat (adds_ride call)).
Proof.
  intros call. eexists. split; [reflexivity|]. split; [reflexivity|].
  split; [reflexivity|]. split; [reflexivity|].
  apply (counts_follow_inserts call database_with_ride). reflexivity.
Defined.

Lemma store_ok_inv call op w w' :
  store call op w = (w', Ok tt) -> op (w_db w) = Ok (w_db w').
Proof.
  unfold store. destruct (op (w_db w)); intros [= <-]; reflexivity.
Qed.

Lemma collect_ride_counts park_id t ride n w w' n' :
  collect_ride park_id t ride n w = (w', Ok n') ->
  n' = n + 1 /\
  (length (wait_times (w_db w')) = S (length (wait_times (w_db w)))
   /\ length (rides (w_db w')) <= S (length (rides (w_db w)))
   /\ length (lands (w_db w')) <= S (length (lands (w_db w)))
   /\ length (parks (w_db w')) = length (parks (w_db w)))%nat.
Proof.
  unfold collect_ride. intros H.
  apply bind_inv in H as [(e & _ & [=])|([] & w1 & Hland & H)].
  apply bind_inv in H as [(e & _ & [=])|([] & w2 & Hride & H)].
  apply bind_inv in H as [(e & _ & [=])|([] & w3 & Hwait & H)].
  injection H as <- <-.
  apply store_ok_inv in Hride, Hwait.
  apply (run_call_counts (InsertRide _ _ _ _)) in Hride.
  apply (run_call_counts (InsertWaitTime _ _ _ _ _)) in Hwait.
  simpl in Hride, Hwait.
  destruct (is_none (r_land_id ride)).
  - injection Hland as <-. split; [reflexivity | lia].
  - apply store_ok_inv in Hland.
    apply (run_call_counts (InsertLand _ _ _)) in Hland. simpl in Hland.
    split; [reflexivity | lia].
Qed.

Lemma collect_rides_counts park_id t rs :
  forall n w w' n',
    for_each rs (collect_ride park_id t) n w = (w', Ok n') ->
    n' = n + Z.of_nat (length rs) /\
    (length (wait_times (w_db w')) = length (wait_times (w_db w)) + length rs
     /\ length (rides (w_db w')) <= length (rides (w_db w)) + length rs
     /\ length (lands (w_db w')) <= length (lands (w_db w)) + length rs
     /\ length (parks (w_db w')) = length (parks (w_db w)))%nat.
Proof.
  induction rs as [|ride rs IH]; intros n w w' n' H; simpl in H.
  - injection H as <- <-. simpl. split; lia.
  - apply bind_inv in H as [(e & _ & [=])|(n1 & w1 & Hride & H)].
    apply collect_ride_counts in Hride as [-> Hride].
    apply IH in H as [-> H]. simpl length. split; lia.
Qed.

Lemma fetch_park_data_total net park_id w :
  exists w1 data,
    fetch_park_data net park_id w = (w1, Ok data) /\ w_db w1 = w_db w.
Proof.
  destruct (fetch_park_data net park_id w) as [w1 r] eqn:H.
  destruct (fetch_attempts_guarded (fun db => db = w_db w) (fun _ => False)
              net park_id _ _ _ _ eq_refl H) as [Hdb Hr].
  destruct r as [data|e]; [eauto | destruct (Hr e eq_refl)].
Qed.

(** X12: the number [collect_park] returns is -1 or the number of readings
    it has written.  When it returns -1 the database is untouched; when it
    returns [n >= 0] the readings table has exactly [n] more rows, one for
    every parsed ride, the rides and lands tables have at most [n] more rows
    each and the parks table at most one more. *)
Theorem collect_park_counts_readings (net : Z -> nat -> http_outcome)
    (park_id : Z) (park_name : string) (t : datetime) (w w' : world) (n : Z) :
  collect_park net park_id park_name t w = (w', Ok n) ->
  (n = -1 /\ w_db w' = w_db w) \/
  (0 <= n /\
   Z.of_nat (length (wait_times (w_db w')))
   = Z.of_nat (length (wait_times (w_db w))) + n /\
   Z.of_nat (length (rides (w_db w')))
   <= Z.of_nat (length (rides (w_db w))) + n /\
   Z.of_nat (length (lands (w_db w')))
   <= Z.of_nat (length (lands (w_db w))) + n /\
   Z.of_nat (length (parks (w_db w')))
   <= Z.of_nat (length (parks (w_db w))) + 1).
Proof.
  intros H. unfold collect_park in H.
  destruct (fetch_park_data_total net park_id w) as (w1 & data & Hfetch & Hdb).
  rewrite (bind_run_ok _ _ _ _ _ Hfetch) in H.
  destruct (is_none data).
  - injection H as <- <-. left. split; [reflexivity | exact Hdb].
  - right.
    apply bind_inv in H as [(e & _ & [=])|([] & w2 & Hpark & H)].
    apply store_ok_inv in Hpark.
    apply (run_call_counts (InsertPark _ _)) in Hpark. simpl in Hpark.
    unfold bind at 1, lift in H.
    destruct (parse_rides data park_id) as [rs|e]; [|discriminate].
    apply collect_rides_counts in H as [-> H].
    rewrite Hdb in Hpark. lia.
Qed.

Lemma collect_park_counts_readings_witness :
  let w := {| w_db := database_with_ride; w_trace := [] |} in
  let out := collect_park (net_serving sample_response) 64
               "Islands of Adventure" saturday_noon w in
  snd out = Ok 3 /\
  length (rides (w_db (fst out))) = 3%nat /\
  ((3 = -1 /\ w_db (fst out) = w_db w) \/
   (0 <= 3 /\
    Z.of_nat (length (wait_times (w_db (fst out))))
    = Z.of_nat (length (wait_times (w_db w))) + 3 /\
    Z.of_nat (length (rides (w_db (fst out))))
    <= Z.of_nat (length (rides (w_db w))) + 3 /\
    Z.of_nat (length (lands (w_db (fst out))))
    <= Z.of_nat (length (lands (w_db w))) + 3 /\
    Z.of_nat (length (parks (w_db (fst out))))
    <= Z.of_nat (length (parks (w_db w))) + 1)).
Proof.
  intros w out.
  assert (Hout : out = (fst out, Ok 3)) by (vm_compute; reflexivity).
  split; [vm_compute; reflexivity|]. split; [vm_compute; reflexivity|].
  exact (collect_park_counts_readings (net_serving sample_response) 64
           "Islands of Adventure" saturday_noon w (fst out) 3 Hout).
Defined.

(** ** The result map *)

Lemma collect_park_outcome_range net park_id park_name t w w' n :
  collect_park net park_id park_name t w = (w', Ok n) -> n = -1 \/ 0 <= n.
Proof.
  intros H. unfold collect_park in H.
  destruct (fetch_park_data_total net park_id w) as (w1 & data & Hfetch & _).
  rewrite (bind_run_ok _ _ _ _ _ Hfetch) in H.
  destruct (is_none data); [injection H as <- <-; now left|].
  apply bind_inv in H as [(e & _ & [=])|([] & w2 & _ & H)].
  unfold bind at 1, lift in H.
  destruct (parse_rides data park_id) as [rs|e]; [|discriminate].
  apply collect_rides_counts in H as [-> _]. right. lia.
Qed.

(** X13: the map [collect_all_parks] returns has exactly the names of the
    configured parks as its keys, and each value is -1 or a count that is
    not negative. *)
Theorem result_map_shape (net : Z -> nat -> http_outcome) (now : datetime)
    (w w' : world) (results : gmap string Z) :
  collect_all_parks net now w = (w', Ok results) ->
  (forall park_name,
     is_Some (results !! park_name) <-> In park_name (map snd PARKS)) /\
  (forall park_name v, results !! park_name = Some v -> v = -1 \/ 0 <= v) /\
  size results = length PARKS.
Proof.
  intros H. unfold collect_all_parks in H.
  apply bind_inv in H as [(e & _ & [=])|([] & w1 & _ & H)].
  destruct (collect_parks_outcomes net now PARKS PARKS_names_distinct
              _ _ _ _ H) as [Hin Hout].
  assert (Hkeys : forall park_name,
             is_Some (results !! park_name) <-> In park_name (map snd PARKS)).
  { intros park_name. split.
    - intros [v Hv].
      destruct (in_dec String.string_dec park_name (map snd PARKS)) as [Hi|Hn];
        [exact Hi|].
      rewrite (Hout _ Hn), lookup_empty in Hv. discriminate.
    - intros Hi. apply in_map_iff in Hi as ([pid name] & <- & Hp).
      destruct (Hin _ _ Hp) as (r & _ & _ & _ & Hlook). now exists r. }
  split; [exact Hkeys|]. split.
  - intros park_name v Hv.
    assert (Hi : In park_name (map snd PARKS)) by (apply Hkeys; now exists v).
    apply in_map_iff in Hi as ([pid name] & <- & Hp).
    destruct (Hin _ _ Hp) as (r & wa & wb & Hpark & Hlook).
    simpl in Hv. rewrite Hlook in Hv. injection Hv as <-.
    exact (collect_park_outcome_range _ _ _ _ _ _ _ Hpark).
  - assert (Hdom : dom results = list_to_set (map snd PARKS)).
    { apply set_eq. intros name. rewrite elem_of_dom, Hkeys.
      rewrite elem_of_list_to_set. symmetry. apply list_elem_of_In. }
    rewrite <- size_dom, Hdom. reflexivity.
Qed.

Lemma result_map_shape_witness :
  let out := collect_all_parks net_first_park_down monday_afternoon
               fresh_world in
  let results : gmap string Z :=
    <["Islands of Adventure" := -1]>
      (<["Universal Studios Florida" := 3]> (<["Epic Universe" := 3]> ∅)) in
  out = (fst out, Ok results) /\
  (forall park_name,
     is_Some (results !! park_name) <-> In park_name (map snd PARKS)) /\
  (forall park_name v, results !! park_name = Some v -> v = -1 \/ 0 <= v) /\
  size results = length PARKS.
Proof.
  intros out results.
  assert (Hrun : out = (fst out, Ok results)) by (vm_compute; reflexivity).
  split; [exact Hrun|].
  exact (result_map_shape net_first_park_down monday_afternoon fresh_world
           (fst out) results Hrun).
Defined.

(** ** A body that is null *)

(** X14: when the first attempt that is answered has the JSON body [null],
    [fetch_park_data] returns [None] at once and [collect_park] reports the
    park as failed: it returns -1, makes no further attempt and touches no
    table, although the request succeeded. *)
Theorem null_body_counts_as_failure (net : Z -> nat -> http_outcome)
    (park_id : Z) (park_name : string) (t : datetime) (w : world) (k : nat) :
  (k < MAX_RETRIES)%nat ->
  all_fail net park_id k ->
  net park_id k = Response JNull ->
  exists evs,
    collect_park net park_id park_name t w
    = ({| w_db := w_db w; w_trace := w_trace w ++ evs |}, Ok (-1)) /\
    request_count evs = S k /\
    store_calls evs = [].
Proof.
  intros Hk Hfail Hnull.
  assert (H0 := Hfail 0%nat). assert (H1 := Hfail 1%nat).
  unfold collect_park, fetch_park_data, MAX_RETRIES in *. simpl.
  unfold bind, emit, ret. simpl.
  destruct k as [|[|[|k]]]; try lia.
  - rewrite Hnull. simpl. eexists. split; [reflexivity|]. now split.
  - destruct (net park_id 0%nat);
      [| | |exfalso; eapply H0; [lia|reflexivity]];
      rewrite Hnull; simpl; rewrite <- !app_assoc; simpl;
      (eexists; split; [reflexivity|]; now split).
  - destruct (net park_id 0%nat);
      [| | |exfalso; eapply H0; [lia|reflexivity]];
      (destruct (net park_id 1%nat);
       [| | |exfalso; eapply H1; [lia|reflexivity]]);
      rewrite Hnull; simpl; rewrite <- !app_assoc; simpl;
      (eexists; split; [reflexivity|]; now split).
Qed.

Lemma null_body_counts_as_failure_witness :
  let net := net_serving JNull in
  (0 < MAX_RETRIES)%nat /\ all_fail net 64 0 /\ net 64 0%nat = Response JNull /\
  exists evs,
    collect_park net 64 "Islands of Adventure" monday_afternoon ready_world
    = ({| w_db := w_db ready_world; w_trace := w_trace ready_world ++ evs |},
       Ok (-1)) /\
    request_count evs = 1%nat /\
    store_calls evs = [].
Proof.
  intros net.
  assert (Hk : (0 < MAX_RETRIES)%nat) by (unfold MAX_RETRIES; lia).
  split; [exact Hk|]. split; [apply all_fail_0|]. split; [reflexivity|].
  apply (null_body_counts_as_failure net 64 "Islands of Adventure"
           monday_afternoon ready_world 0 Hk (all_fail_0 net 64)).
  reflexivity.
Defined.

(** ** Rides without a name or an id *)

Lemma bind_param_opt_str (o : option string) :
  exists v, bind_param (py_opt_str o) = Ok v.
Proof. destruct o; simpl; eauto. Qed.

(** X15: for a top-level ride whose ["name"] is missing, the upsert of the
    ride is skipped without any error ([OR IGNORE] covers the [NOT NULL]
    name).  If the ride is not stored yet, recording its reading then raises
    the foreign-key [IntegrityError] and nothing is written; if it is stored
    already, the reading is recorded as usual. *)
Theorem ride_without_name (park_id : Z) (t : datetime) (ride_id : Z)
    (is_open : bool) (wait_time : option Z) (last_updated : option string)
    (n : Z) (w : world) :
  schema_created (w_db w) ->
  int64 ride_id -> int64 park_id ->
  (forall x, wait_time = Some x -> int64 x) ->
  let ride := standalone_ride park_id (JInt ride_id) JNull is_open wait_time
                last_updated in
  insert_ride (JInt ride_id) (JInt park_id) JNull JNull (w_db w)
  = Ok (w_db w) /\
  (mem ride_id (map rides_id (rides (w_db w))) = false ->
   exists w',
     collect_ride park_id t ride n w
     = (w', Raise (IntegrityError ForeignKey)) /\
     w_db w' = w_db w) /\
  (mem ride_id (map rides_id (rides (w_db w))) = true ->
   exists w' row,
     collect_ride park_id t ride n w = (w', Ok (n + 1)) /\
     rides (w_db w') = rides (w_db w) /\
     wait_times (w_db w') = wait_times (w_db w) ++ [row] /\
     wt_ride_id row = SqlInt ride_id).
Proof.
  unfold schema_created. intros Hschema Hid Hpark Hwt.
  assert (Hskip : insert_ride (JInt ride_id) (JInt park_id) JNull JNull (w_db w)
                  = Ok (w_db w)).
  { unfold insert_ride.
    rewrite Hschema, (bind_param_int _ Hid), (bind_param_int _ Hpark).
    reflexivity. }
  destruct (bind_param_opt_int wait_time Hwt) as [wt Hbwt].
  destruct (bind_param_opt_str last_updated) as [lu Hblu].
  split; [exact Hskip|].
  split; intros Hmem;
    unfold collect_ride, standalone_ride, bind, ret, exec_insert_ride,
      exec_insert_wait_time, store; simpl;
    rewrite Hskip; simpl;
    unfold insert_wait_time;
    rewrite Hschema, (bind_param_int _ Hid), Hbwt; simpl;
    rewrite Hblu; simpl; rewrite Hmem.
  - eexists. split; reflexivity.
  - do 2 eexists. split; [reflexivity|]. simpl. repeat split.
Qed.

Lemma ride_without_name_witness :
  let w := {| w_db := database_with_ride; w_trace := [] |} in
  let new := standalone_ride 64 (JInt 7) JNull false None None in
  let old := standalone_ride 64 (JInt 1001) JNull true (Some 30) None in
  (schema_created (w_db w) /\ int64 7 /\ int64 1001 /\ int64 64) /\
  (exists w',
     collect_ride 64 saturday_noon new 0 w
     = (w', Raise (IntegrityError ForeignKey)) /\
     w_db w' = w_db w) /\
  (exists w' row,
     collect_ride 64 saturday_noon old 0 w = (w', Ok (0 + 1)) /\
     rides (w_db w') = rides (w_db w) /\
     wait_times (w_db w') = wait_times (w_db w) ++ [row] /\
     wt_ride_id row = SqlInt 1001).
Proof.
  intros w new old.
  assert (H7 : int64 7) by (unfold int64; lia).
  assert (H1001 : int64 1001) by (unfold int64; lia).
  assert (H64 : int64 64) by (unfold int64; lia).
  split; [repeat split; (reflexivity || apply H7 || apply H1001 || apply H64)|].
  split.
  - refine (proj1 (proj2 (ride_without_name 64 saturday_noon 7 false None None
                            0 w eq_refl H7 H64 _)) eq_refl).
    intros x Hx. discriminate.
  - refine (proj2 (proj2 (ride_without_name 64 saturday_noon 1001 true
                            (Some 30) None 0 w eq_refl H1001 H64 _)) eq_refl).
    intros x [= <-]. unfold int64. lia.
Defined.

(** X16: for a top-level ride whose ["id"] is missing, every collection
    stores one more ride row, under a rowid chosen by the store, and then
    fails to record the reading, whose [ride_id] must not be NULL: the
    [IntegrityError] leaves the new ride row behind. *)
Theorem ride_without_id (park_id : Z) (t : datetime) (name : string)
    (is_open : bool) (wait_time : option Z) (last_updated : option string)
    (n : Z) (w : world) :
  schema_created (w_db w) ->
  int64 park_id ->
  (forall x, wait_time = Some x -> int64 x) ->
  mem park_id (map parks_id (parks (w_db w))) = true ->
  let ride := standalone_ride park_id JNull (JStr name) is_open wait_time
                last_updated in
  exists w',
    collect_ride park_id t ride n w = (w', Raise (IntegrityError NotNull)) /\
    rides (w_db w')
    = rides (w_db w)
      ++ [{| rides_id := next_rowid (map rides_id (rides (w_db w)));
             rides_land_id := SqlNull;
             rides_park_id := SqlInt park_id;
             rides_name := SqlText name |}] /\
    wait_times (w_db w') = wait_times (w_db w).
Proof.
  unfold schema_created. intros Hschema Hpark Hwt Hparent.
  destruct (bind_param_opt_int wait_time Hwt) as [wt Hbwt].
  destruct (bind_param_opt_str last_updated) as [lu Hblu].
  assert (Hfresh : mem (next_rowid (map rides_id (rides (w_db w))))
                     (map rides_id (rides (w_db w))) = false)
    by (apply mem_false_iff, next_rowid_fresh).
  assert (Hins : insert_ride JNull (JInt park_id) (JStr name) JNull (w_db w)
                 = Ok {| schema := schema (w_db w); parks := parks (w_db w);
                         lands := lands (w_db w);
                         rides := rides (w_db w)
                                  ++ [{| rides_id :=
                                           next_rowid
                                             (map rides_id (rides (w_db w)));
                                         rides_land_id := SqlNull;
                                         rides_park_id := SqlInt park_id;
                                         rides_name := SqlText name |}];
                         wait_times := wait_times (w_db w) |}).
  { unfold insert_ride. rewrite Hschema, (bind_param_int _ Hpark). simpl.
    now rewrite Hfresh, Hparent. }
  unfold collect_ride, standalone_ride, bind, ret, exec_insert_ride,
    exec_insert_wait_time, store. simpl.
  rewrite Hins. simpl.
  unfold insert_wait_time. simpl. rewrite Hschema. simpl.
  rewrite Hbwt. simpl. rewrite Hblu. simpl.
  eexists. split; [reflexivity|]. split; reflexivity.
Qed.

Lemma ride_without_id_witness :
  let w := {| w_db := database_with_ride; w_trace := [] |} in
  let ride := standalone_ride 64 JNull (JStr "Nameless") true (Some 5) None in
  (schema_created (w_db w) /\ int64 64 /\
   mem 64 (map parks_id (parks (w_db w))) = true) /\
  exists w',
    collect_ride 64 saturday_noon ride 0 w
    = (w', Raise (IntegrityError NotNull)) /\
    rides (w_db w')
    = rides (w_db w)
      ++ [{| rides_id := 1002; rides_land_id := SqlNull;
             rides_park_id := SqlInt 64;
             rides_name := SqlText "Nameless" |}] /\
    wait_times (w_db w') = wait_times (w_db w).
Proof.
  intros w ride.
  assert (H64 : int64 64) by (unfold int64; lia).
  split; [repeat split; (reflexivity || apply H64)|].
  apply (ride_without_id 64 saturday_noon "Nameless" true (Some 5) None 0 w
           eq_refl H64); [|reflexivity].
  intros x [= <-]. unfold int64. lia.
Defined.

(** ** Ids of readings *)

Lemma increasing_snoc (ids : list Z) (z : Z) :
  increasing ids -> (forall y, y ∈ ids -> y < z) -> increasing (ids ++ [z]).
Proof.
  induction ids as [|x ids IH]; simpl; intros Hinc Hbelow.
  - split; [constructor | exact I].
  - destruct Hinc as [Hx Hinc]. split.
    + apply Forall_app. split; [exact Hx|].
      repeat constructor. apply Hbelow. now left.
    + apply IH; [exact Hinc|]. intros y Hy. apply Hbelow. now right.
Qed.

Lemma run_call_keeps_ids_increasing call db db' :
  run_call call db = Ok db' ->
  increasing (map wt_id (wait_times db)) ->
  increasing (map wt_id (wait_times db')).
Proof.
  intros H Hinc.
  destruct call; simpl in H;
    unfold init_database, insert_park, insert_land, insert_ride,
      insert_wait_time, get_ride_count, get_wait_time_count in H;
    invert_store H; simpl; try assumption.
  rewrite map_app. simpl. apply increasing_snoc; [exact Hinc|].
  apply next_rowid_above.
Qed.

(** X17: the ids of the readings grow with the order of insertion: if they
    did before, they still do after any store call that returns, and after
    any run of [main], however it ends. *)
Theorem reading_ids_increase :
  (forall call db db',
     run_call call db = Ok db' ->
     increasing (map wt_id (wait_times db)) ->
     increasing (map wt_id (wait_times db'))) /\
  (forall net now check w w' r,
     main net now check w = (w', r) ->
     increasing (map wt_id (wait_times (w_db w))) ->
     increasing (map wt_id (wait_times (w_db w')))).
Proof.
  split.
  - apply run_call_keeps_ids_increasing.
  - intros net now check w w' r H.
    destruct (main_conforms net now check _ _ _ H) as (evs & _ & -> & _).
    apply (run_calls_keeps
             (fun db => increasing (map wt_id (wait_times db)))).
    apply run_call_keeps_ids_increasing.
Qed.

Lemma reading_ids_increase_witness :
  let w := {| w_db := database_with_ride; w_trace := [] |} in
  let out := main (net_serving sample_response) saturday_noon false w in
  map wt_id (wait_times (w_db (fst out))) = [1; 2; 3; 4; 5; 6; 7; 8; 9] /\
  increasing (map wt_id (wait_times (w_db w))) /\
  increasing (map wt_id (wait_times (w_db (fst out)))).
Proof.
  intros w out.
  assert (Hbefore : increasing (map wt_id (wait_times (w_db w))))
    by exact I.
  split; [vm_compute; reflexivity|]. split; [exact Hbefore|].
  apply (proj2 reading_ids_increase (net_serving sample_response)
           saturday_noon false w (fst out) (snd out));
    [apply surjective_pairing | exact Hbefore].
Defined.

(** ** The status check *)

(** X18: [main] with [--check] only creates missing tables and reads: it
    changes no row, makes no request, prints the number of ride rows and the
    number of reading rows the database holds (0 and 0 when there was no
    database yet) and returns, so the process exits with status 0. *)
Theorem check_reports_row_counts (net : Z -> nat -> http_outcome)
    (now : datetime) (w : world) :
  exists w',
    main net now true w = (w', Ok tt) /\
    exit_status (snd (main net now true w)) = 0 /\
    schema_created (w_db w') /\
    parks (w_db w') = parks (w_db w) /\
    lands (w_db w') = lands (w_db w) /\
    rides (w_db w') = rides (w_db w) /\
    wait_times (w_db w') = wait_times (w_db w) /\
    w_trace w'
    = w_trace w
      ++ [Store InitDatabase; Store GetRideCount; Store GetWaitTimeCount;
          Print (Z.of_nat (length (rides (w_db w))))
            (Z.of_nat (length (wait_times (w_db w))))].
Proof.
  unfold main, check_status, bind, store, query, emit, init_database,
    get_ride_count, get_wait_time_count. simpl.
  eexists. split; [reflexivity|]. simpl.
  repeat split. now rewrite <- !app_assoc.
Qed.

(** ** Collecting the same response again *)

















(** ** The summary of a run *)

Lemma total_of_perm (f : Z -> bool) (g : Z -> Z) (l l' : list Z) :
  l ≡ₚ l' ->
  fold_right Z.add 0 (map g (List.filter f l))
  = fold_right Z.add 0 (map g (List.filter f l')).
Proof.
  induction 1 as [|x l l' _ IH|x y l|l1 l2 l3 _ IH1 _ IH2]; simpl.
  - reflexivity.
  - destruct (f x); simpl; lia.
  - destruct (f x), (f y); simpl; lia.
  - lia.
Qed.

Lemma values_insert (results : gmap string Z) (name : string) (v : Z) :
  results !! name = None ->
  map snd (map_to_list (<[name := v]> results))
  ≡ₚ v :: map snd (map_to_list results).
Proof.
  intros Hnone. rewrite (map_to_list_insert results name v Hnone).
  reflexivity.
Qed.

Lemma total_records_insert (results : gmap string Z) (name : string) (v : Z) :
  results !! name = None ->
  total_records (<[name := v]> results)
  = total_records results + (if 0 <=? v then v else 0).
Proof.
  intros Hnone. unfold total_records.
  pose proof (total_of_perm (fun r => 0 <=? r) (fun r => r) _ _
                (values_insert results name v Hnone)) as H.
  rewrite !map_id in H. rewrite H. simpl.
  destruct (0 <=? v); simpl; lia.
Qed.

Lemma failed_parks_insert (results : gmap string Z) (name : string) (v : Z) :
  results !! name = None ->
  failed_parks (<[name := v]> results)
  = failed_parks results + (if v <? 0 then 1 else 0).
Proof.
  intros Hnone. unfold failed_parks.
  rewrite (total_of_perm (fun r => r <? 0) (fun _ => 1) _ _
             (values_insert results name v Hnone)).
  simpl. destruct (v <? 0); simpl; lia.
Qed.

Lemma collect_park_readings_delta net park_id park_name t w w' n :
  collect_park net park_id park_name t w = (w', Ok n) ->
  (n = -1 \/ 0 <= n) /\
  Z.of_nat (length (wait_times (w_db w')))
  = Z.of_nat (length (wait_times (w_db w))) + (if 0 <=? n then n else 0).
Proof.
  intros H. unfold collect_park in H.
  destruct (fetch_park_data_total net park_id w) as (w1 & data & Hfetch & Hdb).
  rewrite (bind_run_ok _ _ _ _ _ Hfetch) in H.
  destruct (is_none data).
  - injection H as <- <-. rewrite Hdb. simpl. split; [now left | lia].
  - apply bind_inv in H as [(e & _ & [=])|([] & w2 & Hpark & H)].
    apply store_ok_inv in Hpark.
    apply (run_call_counts (InsertPark _ _)) in Hpark. simpl in Hpark.
    unfold bind at 1, lift in H.
    destruct (parse_rides data park_id) as [rs|e]; [|discriminate].
    apply collect_rides_counts in H as [-> H]. rewrite Hdb in Hpark.
    split; [right; lia|].
    destruct (Z.leb_spec 0 (0 + Z.of_nat (length rs))); lia.
Qed.

Lemma collect_parks_summary net t parks :
  NoDup (map snd parks) ->
  forall res0 w w' results,
    (forall name, In name (map snd parks) -> res0 !! name = None) ->
    collect_parks net parks t res0 w = (w', Ok results) ->
    Z.of_nat (length (wait_times (w_db w'))) + total_records res0
    = Z.of_nat (length (wait_times (w_db w))) + total_records results /\
    failed_parks res0 <= failed_parks results
    <= failed_parks res0 + Z.of_nat (length parks).
Proof.
  unfold collect_parks.
  induction parks as [|[pid name] parks IH]; simpl;
    intros Hnodup res0 w w' results Hfree H.
  - injection H as <- <-. lia.
  - inversion Hnodup as [|? ? Hfresh Hnodup']; subst.
    rewrite list_elem_of_In in Hfresh.
    apply bind_inv in H as [(e & _ & [=])|(res1 & w1 & Hpark & Hrest)].
    apply bind_inv in Hpark as [(e & _ & [=])|(r & w2 & Hpark & Hret)].
    injection Hret as <- <-. simpl in Hrest.
    apply collect_park_readings_delta in Hpark as [_ Hdelta].
    assert (Hnone : res0 !! name = None) by (apply Hfree; now left).
    assert (Hfree' : forall nm, In nm (map snd parks) ->
                                <[name := r]> res0 !! nm = None).
    { intros nm Hnm. rewrite lookup_insert_ne by congruence.
      apply Hfree. now right. }
    destruct (IH Hnodup' _ _ _ _ Hfree' Hrest) as [Htotal Hfail].
    rewrite (total_records_insert _ _ _ Hnone) in Htotal.
    rewrite (failed_parks_insert _ _ _ Hnone) in Hfail.
    destruct (r <? 0); lia.
Qed.

Lemma total_nonneg (l : list Z) :
  0 <= fold_right Z.add 0 (List.filter (fun r => 0 <=? r) l).
Proof.
  induction l as [|x l IH]; simpl; [lia|].
  destruct (Z.leb_spec 0 x); simpl; lia.
Qed.

Lemma count_positive_iff (f : Z -> bool) (l : list Z) :
  0 < fold_right Z.add 0 (map (fun _ => 1) (List.filter f l))
  <-> existsb f l = true.
Proof.
  assert (Hge : forall k, 0 <= fold_right Z.add 0
                                 (map (fun _ : Z => 1) (List.filter f k))).
  { induction k as [|y k IHk]; simpl; [lia|]. destruct (f y); simpl; lia. }
  induction l as [|x l IH]; simpl; [split; [lia | discriminate]|].
  destruct (f x); simpl; [|exact IH].
  split; [reflexivity|]. intros _. specialize (Hge l). lia.
Qed.

(** X20: when [collect_all_parks] returns, the total it computes for the
    log, the sum of the outcomes that are not negative, is exactly the number
    of readings the run has added to the database; the number of failed
    parks it computes is between 0 and 3, and is positive exactly when
    [main] exits with a failure. *)
Theorem run_summary_matches_database (net : Z -> nat -> http_outcome)
    (now : datetime) (w w' : world) (results : gmap string Z) :
  collect_all_parks net now w = (w', Ok results) ->
  Z.of_nat (length (wait_times (w_db w')))
  = Z.of_nat (length (wait_times (w_db w))) + total_records results /\
  0 <= total_records results /\
  0 <= failed_parks results <= 3 /\
  (0 < failed_parks results <-> any_negative results = true).
Proof.
  intros H. unfold collect_all_parks in H.
  apply bind_inv in H as [(e & _ & [=])|([] & w1 & Hinit & H)].
  unfold store in Hinit. simpl in Hinit. injection Hinit as <-.
  destruct (collect_parks_summary net now PARKS PARKS_names_distinct
              ∅ _ _ _ (fun name _ => lookup_empty name) H) as [Htotal Hfail].
  simpl in Htotal, Hfail.
  change (total_records ∅) with 0 in Htotal.
  change (failed_parks ∅) with 0 in Hfail.
  split; [lia|]. split; [apply total_nonneg|]. split; [lia|].
  apply count_positive_iff.
Qed.

Lemma run_summary_matches_database_witness :
  let out := collect_all_parks net_first_park_down monday_afternoon
               fresh_world in
  let results : gmap string Z :=
    <["Islands of Adventure" := -1]>
      (<["Universal Studios Florida" := 3]> (<["Epic Universe" := 3]> ∅)) in
  out = (fst out, Ok results) /\
  total_records results = 6 /\
  failed_parks results = 1 /\
  Z.of_nat (length (wait_times (w_db (fst out))))
  = Z.of_nat (length (wait_times (w_db fresh_world))) + total_records results /\
  0 <= total_records results /\
  0 <= failed_parks results <= 3 /\
  (0 < failed_parks results <-> any_negative results = true).
Proof.
  intros out results.
  assert (Hrun : out = (fst out, Ok results)) by (vm_compute; reflexivity).
  split; [exact Hrun|].
  split; [vm_compute; reflexivity|]. split; [vm_compute; reflexivity|].
  exact (run_summary_matches_database net_first_park_down monday_afternoon
           fresh_world (fst out) results Hrun).
Defined.

(** ** Failed parks and the exit status *)

(** A park whose first request is answered with a body other than [null]
    has no negative outcome. *)
Lemma collect_park_answered net park_id park_name t w w' n body :
  net park_id 0%nat = Response body -> is_none body = false ->
  collect_park net park_id park_name t w = (w', Ok n) -> 0 <= n.
Proof.
  intros Hnet Hbody H. unfold collect_park in H.
  assert (Hfetch : fetch_park_data net park_id w
                   = ({| w_db := w_db w;
                         w_trace := w_trace w ++ [Request park_id] |},
                      Ok body)).
  { unfold fetch_park_data, MAX_RETRIES. simpl. unfold bind, emit. simpl.
    rewrite Hnet. reflexivity. }
  rewrite (bind_run_ok _ _ _ _ _ Hfetch) in H. cbv beta in H.
  rewrite Hbody in H.
  apply bind_inv in H as [(e & _ & [=])|([] & w2 & _ & H)].
  unfold bind at 1, lift in H.
  destruct (parse_rides body park_id) as [rs|e]; [|discriminate].
  apply collect_rides_counts in H as [-> _]. lia.
Qed.

(** C8, as amended: when every attempt to fetch a park fails, [collect_park]
    returns -1 for it without touching the database, and the loop of
    [collect_all_parks] goes on with the remaining parks, with -1 recorded
    under the park's name.  A run that returns its result map has recorded
    under every configured park's name what [collect_park] returned for it.
    The exit status of [main] without [--check] is non-zero exactly when
    [collect_all_parks] returns a result map with a negative outcome in it,
    or is ended by an exception and returns no result map. *)
Theorem failed_park_is_isolated (net : Z -> nat -> http_outcome)
    (now : datetime) :
  (forall park_id park_name t w,
     all_fail net park_id MAX_RETRIES ->
     exists w1,
       collect_park net park_id park_name t w = (w1, Ok (-1)) /\
       w_db w1 = w_db w /\
       forall rest results,
         collect_parks net ((park_id, park_name) :: rest) t results w
         = collect_parks net rest t (<[park_name := -1]> results) w1) /\
  (forall w w' results,
     collect_all_parks net now w = (w', Ok results) ->
     forall park_id park_name,
       In (park_id, park_name) PARKS ->
       exists r wa wb,
         collect_park net park_id park_name now wa = (wb, Ok r) /\
         results !! park_name = Some r /\
         (all_fail net park_id MAX_RETRIES -> r = -1)) /\
  (forall w w' r,
     main net now false w = (w', r) ->
     (exit_status r <> 0 <->
      (exists results,
         collect_all_parks net now w = (w', Ok results) /\
         exists park_name v, results !! park_name = Some v /\ v < 0) \/
      (exists e, collect_all_parks net now w = (w', Raise e)))).
Proof.
  split; [|split].
  - intros park_id park_name t w Hfail.
    pose proof (collect_park_fetch_failed net park_id park_name t w Hfail)
      as Hpark.
    eexists. split; [exact Hpark|]. split; [reflexivity|].
    intros rest results. unfold collect_parks. simpl.
    rewrite (bind_run_ok _ _ _ _ _
               (bind_run_ok _ _ _ _ _ Hpark)).
    reflexivity.
  - intros w w' results Hrun.
    unfold collect_all_parks in Hrun.
    apply bind_inv in Hrun as [(e & _ & [=])|([] & w1 & _ & Hloop)].
    destruct (collect_parks_outcomes net now PARKS PARKS_names_distinct
                _ _ _ _ Hloop) as [Hin _].
    intros park_id park_name Hp.
    destruct (Hin park_id park_name Hp) as (r & wa & wb & Hpark & Hlook).
    exists r, wa, wb. repeat split; try assumption.
    intros Hfail.
    rewrite (collect_park_fetch_failed net park_id park_name now wa Hfail)
      in Hpark.
    now injection Hpark as _ <-.
  - intros w w' r H. unfold main in H.
    apply bind_inv in H as [(e & H & ->)|(results & w1 & H & Hexit)].
    + pose proof (collect_all_parks_guarded _ _ _ _ _ H) as [_ He].
      specialize (He e eq_refl).
      split; [intros _; right; now exists e|].
      intros _. destruct e; simpl in He; try contradiction; discriminate.
    + destruct (any_negative results) eqn:Hneg; injection Hexit as <- <-;
        simpl.
      * split; [|discriminate]. intros _. left. exists results.
        split; [exact H | now apply any_negative_spec].
      * split; [congruence|].
        intros [(results' & Hrun & Hex)|(e & Hrun)]; [|congruence].
        assert (results' = results) by congruence. subst results'.
        apply any_negative_spec in Hex. congruence.
Qed.

Lemma failed_park_is_isolated_witness :
  let out := collect_all_parks net_first_park_down monday_afternoon
               fresh_world in
  let results : gmap string Z :=
    <["Islands of Adventure" := -1]>
      (<["Universal Studios Florida" := 3]> (<["Epic Universe" := 3]> ∅)) in
  all_fail net_first_park_down 64 MAX_RETRIES /\
  out = (fst out, Ok results) /\
  main net_first_park_down monday_afternoon false fresh_world
  = (fst out, Raise (SystemExit 1)) /\
  (exists w1,
     collect_park net_first_park_down 64 "Islands of Adventure"
       monday_afternoon ready_world = (w1, Ok (-1)) /\
     w_db w1 = w_db ready_world /\
     forall rest results0,
       collect_parks net_first_park_down
         ((64, "Islands of Adventure") :: rest) monday_afternoon results0
         ready_world
       = collect_parks net_first_park_down rest monday_afternoon
           (<["Islands of Adventure" := -1]> results0) w1) /\
  (forall park_id park_name,
     In (park_id, park_name) PARKS ->
     exists r wa wb,
       collect_park net_first_park_down park_id park_name monday_afternoon wa
       = (wb, Ok r) /\
       results !! park_name = Some r /\
       (all_fail net_first_park_down park_id MAX_RETRIES -> r = -1)) /\
  (exit_status (Raise (SystemExit 1) : result unit) <> 0 <->
   (exists results',
      out = (fst out, Ok results') /\
      exists park_name v, results' !! park_name = Some v /\ v < 0) \/
   (exists e, out = (fst out, Raise e))).
Proof.
  intros out results.
  assert (Hdown : all_fail net_first_park_down 64 MAX_RETRIES)
    by (intros k _ body; discriminate).
  assert (Hrun : out = (fst out, Ok results)) by (vm_compute; reflexivity).
  assert (Hmain : main net_first_park_down monday_afternoon false fresh_world
                  = (fst out, Raise (SystemExit 1)))
    by (vm_compute; reflexivity).
  split; [exact Hdown|]. split; [exact Hrun|]. split; [exact Hmain|].
  split; [|split].
  - exact (proj1 (failed_park_is_isolated net_first_park_down
                    monday_afternoon)
             64 "Islands of Adventure" monday_afternoon ready_world Hdown).
  - exact (proj1 (proj2 (failed_park_is_isolated net_first_park_down
                           monday_afternoon))
             fresh_world (fst out) results Hrun).
  - exact (proj2 (proj2 (failed_park_is_isolated net_first_park_down
                           monday_afternoon))
             fresh_world (fst out) (Raise (SystemExit 1)) Hmain).
Defined.

(** C8, as stated, fails when a store call raises.  Every park answers at
    once here, so no park has a negative outcome, whatever the state of the
    database; the ride without a name is refused with the foreign-key error,
    [collect_all_parks] returns no result map, and the exit status is 1. *)
Lemma exit_failure_without_failed_park :
  let net := net_serving response_ride_without_name in
  let out := main net monday_afternoon false fresh_world in
  snd out = Raise (IntegrityError ForeignKey) /\
  exit_status (snd out) = 1 /\
  (forall park_id park_name w w' n,
     collect_park net park_id park_name monday_afternoon w = (w', Ok n) ->
     0 <= n) /\
  (forall results,
     snd (collect_all_parks net monday_afternoon fresh_world) <> Ok results).
Proof.
  intros net out.
  split; [vm_compute; reflexivity|]. split; [vm_compute; reflexivity|].
  split.
  - intros park_id park_name w w' n H.
    apply (collect_park_answered net park_id park_name monday_afternoon w w' n
             response_ride_without_name); [reflexivity | reflexivity | exact H].
  - intros results. vm_compute. discriminate.
Qed.

(** * Properties of the dashboard *)

Lemma day_name_of_weekday (d : Z) :
  0 <= d <= 6 ->
  exists name,
    day_name d = Some name /\
    ((5 <=? d) = true <-> name = "Saturday" \/ name = "Sunday").
Proof.
  intros Hrange.
  assert (Hcases : d = 0 \/ d = 1 \/ d = 2 \/ d = 3 \/ d = 4 \/ d = 5 \/ d = 6)
    by lia.
  destruct Hcases as [->|[->|[->|[->|[->|[->| ->]]]]]];
    (eexists; split; [reflexivity|]);
    simpl; split; intros HH; try discriminate; try reflexivity;
    try (destruct HH; discriminate); auto.
Qed.

(** X21: every reading [insert_wait_time] writes gets a day name in the
    dashboard: its [day_of_week] is a key of [DAY_NAMES], and the name is
    Saturday or Sunday exactly when its [is_weekend] flag is set. *)
Theorem readings_have_day_names ride_id wait_time is_open t api_last_updated
    db db' :
  insert_wait_time ride_id wait_time is_open t api_last_updated db = Ok db' ->
  exists row name,
    wait_times db' = wait_times db ++ [row] /\
    day_name (wt_day_of_week row) = Some name /\
    (wt_is_weekend row = true <-> name = "Saturday" \/ name = "Sunday").
Proof.
  intros H. unfold insert_wait_time in H. invert_store H.
  destruct (day_name_of_weekday (weekday t) (weekday_range t))
    as (name & Hname & Hweekend).
  eexists. exists name. simpl. split; [reflexivity|].
  simpl. split; [exact Hname | exact Hweekend].
Qed.

Lemma readings_have_day_names_witness :
  exists db' row name,
    insert_wait_time (JInt 1001) (JInt 60) (JBool true) saturday_noon JNull
      database_with_ride = Ok db' /\
    wait_times db' = wait_times database_with_ride ++ [row] /\
    day_name (wt_day_of_week row) = Some name /\
    name = "Saturday" /\
    (wt_is_weekend row = true <-> name = "Saturday" \/ name = "Sunday").
Proof.
  destruct (readings_have_day_names (JInt 1001) (JInt 60) (JBool true)
              saturday_noon JNull database_with_ride _ eq_refl)
    as (row & name & Hrows & Hname & Hweekend).
  eexists. exists row, name. split; [reflexivity|].
  split; [exact Hrows|]. split; [exact Hname|]. split; [|exact Hweekend].
  simpl in Hrows. injection Hrows as Hrow. subst row.
  vm_compute in Hname. now injection Hname as <-.
Defined.

Lemma filter_filter_and {A} (p q : A -> bool) (l : list A) :
  List.filter q (List.filter p l) = List.filter (fun x => p x && q x) l.
Proof.
  induction l as [|a l IH]; simpl; [reflexivity|].
  destruct (p a) eqn:Hp; simpl; [|exact IH].
  destruct (q a); [f_equal|]; exact IH.
Qed.

Lemma filter_sublist {A} (p : A -> bool) (l : list A) :
  sublist (List.filter p l) l.
Proof.
  induction l as [|a l IH]; simpl; [constructor|].
  destruct (p a); [apply sublist_skip | apply sublist_cons]; exact IH.
Qed.

Lemma filter_idempotent {A} (p : A -> bool) (l : list A) :
  List.filter p (List.filter p l) = List.filter p l.
Proof.
  rewrite filter_filter_and. apply List.filter_ext. intros a.
  now destruct (p a).
Qed.

Lemma filter_none {A} (p : A -> bool) (l : list A) :
  (forall a, In a l -> p a = false) -> List.filter p l = [].
Proof.
  induction l as [|a l IH]; simpl; intros H; [reflexivity|].
  rewrite (H a (or_introl eq_refl)). apply IH. intros b Hb. apply H. now right.
Qed.

Lemma filter_split_length {A} (p q : A -> bool) (l : list A) :
  (forall a, In a l -> p a = negb (q a)) ->
  length l = (length (List.filter p l) + length (List.filter q l))%nat.
Proof.
  induction l as [|a l IH]; simpl; intros H; [reflexivity|].
  rewrite (H a (or_introl eq_refl)).
  rewrite (IH (fun b Hb => H b (or_intror Hb))).
  destruct (q a); simpl; lia.
Qed.

Section ApplyFiltersProperties.

Variable row : Type.
Variable park_name : row -> string.
Variable row_date : row -> date.
Variable hour : row -> Z.
Variable ride_name : row -> string.
Variable is_weekend : row -> Z.
Variable is_open : row -> Z.
Variable wait_time : row -> option Z.

Local Notation "'apply_filters''" :=
  (apply_filters row park_name row_date hour ride_name is_weekend is_open
     wait_time).
Local Notation "'kept''" :=
  (kept row park_name row_date hour ride_name is_weekend is_open wait_time).

(** The chain of mask selections is one selection, by the conjunction of the
    masks. *)
Lemma apply_filters_filter (df : list row) (f : filters) :
  apply_filters' df f = List.filter (kept' f) df.
Proof.
  unfold apply_filters, kept.
  destruct (f_parks f) as [|p ps];
    destruct (ride_selected (f_ride f)) as [ride|];
    destruct (String.eqb (f_day_filter f) "Weekdays Only");
    destruct (String.eqb (f_day_filter f) "Weekends Only");
    cbv zeta; rewrite ?filter_filter_and;
    apply List.filter_ext; intros r;
    rewrite ?andb_true_r, ?andb_true_l, ?andb_assoc; reflexivity.
Qed.

Lemma parks_mask_spec (f : filters) (r : row) :
  match f_parks f with
  | [] => true
  | _ :: _ => existsb (String.eqb (park_name r)) (f_parks f)
  end = true <->
  f_parks f = [] \/ In (park_name r) (f_parks f).
Proof.
  destruct (f_parks f) as [|p ps] eqn:Hparks.
  - split; auto.
  - rewrite existsb_exists. split.
    + intros (x & Hx & Heq). apply String.eqb_eq in Heq. subst x. now right.
    + intros [Hnil|Hin]; [discriminate|].
      exists (park_name r). split; [exact Hin | apply String.eqb_refl].
Qed.

Lemma ride_mask_spec (f : filters) (r : row) :
  match ride_selected (f_ride f) with
  | Some ride => String.eqb (ride_name r) ride
  | None => true
  end = true <->
  (forall ride, f_ride f = Some ride -> ride <> "" -> ride_name r = ride).
Proof.
  destruct (f_ride f) as [[|c ride]|]; simpl.
  - split; [|reflexivity]. intros _ ride [= <-] Hne. now destruct Hne.
  - rewrite String.eqb_eq. split.
    + intros Heq ride' [= <-] _. exact Heq.
    + intros H. now apply H.
  - split; [|reflexivity]. intros _ ride Hsome. discriminate.
Qed.

Lemma day_mask_spec (f : filters) (r : row) :
  (if String.eqb (f_day_filter f) "Weekdays Only" then is_weekend r =? 0
   else if String.eqb (f_day_filter f) "Weekends Only" then is_weekend r =? 1
   else true) = true <->
  (f_day_filter f = "Weekdays Only" -> is_weekend r = 0) /\
  (f_day_filter f = "Weekends Only" -> is_weekend r = 1).
Proof.
  destruct (String.eqb (f_day_filter f) "Weekdays Only") eqn:Hwd.
  - apply String.eqb_eq in Hwd. rewrite Hwd, Z.eqb_eq. split.
    + intros H. split; [auto | discriminate].
    + intros [H _]. now apply H.
  - apply String.eqb_neq in Hwd.
    destruct (String.eqb (f_day_filter f) "Weekends Only") eqn:Hwe.
    + apply String.eqb_eq in Hwe. rewrite Z.eqb_eq. split.
      * intros H. split; [intros Heq; now destruct Hwd | auto].
      * intros [_ H]. now apply H.
    + apply String.eqb_neq in Hwe. split; [|reflexivity].
      intros _. split; intros Heq; [now destruct Hwd | now destruct Hwe].
Qed.

Lemma kept_spec (f : filters) (r : row) :
  kept' f r = true <->
  (f_parks f = [] \/ In (park_name r) (f_parks f)) /\
  (date_leb (f_start_date f) (row_date r) = true /\
   date_leb (row_date r) (f_end_date f) = true) /\
  fst (f_hour_range f) <= hour r <= snd (f_hour_range f) /\
  (forall ride, f_ride f = Some ride -> ride <> "" -> ride_name r = ride) /\
  ((f_day_filter f = "Weekdays Only" -> is_weekend r = 0) /\
   (f_day_filter f = "Weekends Only" -> is_weekend r = 1)) /\
  is_open r = 1 /\ wait_time r <> None.
Proof.
  unfold kept. rewrite !andb_true_iff.
  rewrite parks_mask_spec, ride_mask_spec, day_mask_spec.
  rewrite !Z.leb_le, Z.eqb_eq.
  assert (Hwait : match wait_time r with Some _ => true | None => false end
                  = true <-> wait_time r <> None)
    by (destruct (wait_time r); split; congruence).
  rewrite Hwait. tauto.
Qed.

(** X22: the rows [apply_filters] returns are exactly the rows of the data
    frame that are of a selected park (of any park when no park is selected),
    dated within the date range and timed within the hour range (bounds
    included), of the selected ride (of any ride when the selection is
    [None] or empty), on a weekday under "Weekdays Only" and at a weekend
    under "Weekends Only", open, and with a wait time. *)
Theorem apply_filters_selection (df : list row) (f : filters) (r : row) :
  In r (apply_filters' df f) <->
  In r df /\
  (f_parks f = [] \/ In (park_name r) (f_parks f)) /\
  (date_leb (f_start_date f) (row_date r) = true /\
   date_leb (row_date r) (f_end_date f) = true) /\
  fst (f_hour_range f) <= hour r <= snd (f_hour_range f) /\
  (forall ride, f_ride f = Some ride -> ride <> "" -> ride_name r = ride) /\
  ((f_day_filter f = "Weekdays Only" -> is_weekend r = 0) /\
   (f_day_filter f = "Weekends Only" -> is_weekend r = 1)) /\
  is_open r = 1 /\ wait_time r <> None.
Proof.
  rewrite apply_filters_filter, filter_In, kept_spec. reflexivity.
Qed.

(** X23: [apply_filters] returns a subsequence of the data frame, rows in
    their order and none twice over, and filtering its result again with the
    same filters changes nothing. *)
Theorem apply_filters_subsequence (df : list row) (f : filters) :
  sublist (apply_filters' df f) df /\
  apply_filters' (apply_filters' df f) f = apply_filters' df f.
Proof.
  rewrite !apply_filters_filter. split.
  - apply filter_sublist.
  - apply filter_idempotent.
Qed.

(** X24: an hour range or a date range whose lower bound lies above its
    upper bound selects nothing. *)
Theorem apply_filters_inverted_range (df : list row) (f : filters) :
  snd (f_hour_range f) < fst (f_hour_range f) \/
  date_leb (f_start_date f) (f_end_date f) = false ->
  apply_filters' df f = [].
Proof.
  intros Hinv. rewrite apply_filters_filter. apply filter_none.
  intros r _. destruct (kept' f r) eqn:Hkept; [|reflexivity].
  apply kept_spec in Hkept as (_ & [Hs He] & Hh & _).
  destruct Hinv as [Hinv|Hinv]; [lia|].
  exfalso. revert Hs He Hinv. unfold date_leb.
  destruct (f_start_date f) as [y1 m1 d1], (row_date r) as [y2 m2 d2],
    (f_end_date f) as [y3 m3 d3]. simpl.
  rewrite !orb_true_iff, !andb_true_iff, !orb_true_iff, !andb_true_iff,
    orb_false_iff, andb_false_iff, orb_false_iff, andb_false_iff.
  rewrite !Z.ltb_lt, !Z.eqb_eq, !Z.leb_le, !Z.ltb_ge, !Z.eqb_neq, Z.leb_gt.
  lia.
Qed.

(** X25: selecting no park at all is selecting every park of the data
    frame, and selecting the empty ride name is selecting no ride: neither
    restricts the rows. *)
Theorem apply_filters_empty_selection (df : list row) (f : filters) :
  apply_filters' df (with_parks f []) =
  apply_filters' df (with_parks f (map park_name df)) /\
  apply_filters' df (with_ride f (Some "")) =
  apply_filters' df (with_ride f None).
Proof.
  split; [|reflexivity].
  rewrite !apply_filters_filter. apply List.filter_ext_in. intros r Hin.
  destruct (kept' (with_parks f []) r) eqn:H1;
    destruct (kept' (with_parks f (map park_name df)) r) eqn:H2;
    try reflexivity.
  - apply not_true_iff_false in H2. destruct H2.
    apply kept_spec in H1. apply kept_spec. simpl in *.
    destruct H1 as (_ & H1). split; [|exact H1].
    right. now apply in_map.
  - apply not_true_iff_false in H1. destruct H1.
    apply kept_spec in H2. apply kept_spec. simpl in *.
    destruct H2 as (_ & H2). split; [now left | exact H2].
Qed.

(** X26: when every reading's [is_weekend] is 0 or 1, the weekday rows and
    the weekend rows split the rows of all days: each row of all days is in
    exactly one of the two selections, and the counts add up. *)
Theorem apply_filters_day_split (df : list row) (f : filters) :
  (forall r, In r df -> is_weekend r = 0 \/ is_weekend r = 1) ->
  let all_days := apply_filters' df (with_day_filter f "All Days") in
  let weekdays := apply_filters' df (with_day_filter f "Weekdays Only") in
  let weekends := apply_filters' df (with_day_filter f "Weekends Only") in
  (forall r, In r all_days <-> In r weekdays \/ In r weekends) /\
  (forall r, ~ (In r weekdays /\ In r weekends)) /\
  length all_days = (length weekdays + length weekends)%nat.
Proof.
  intros Hflag all_days weekdays weekends.
  assert (Hwd : weekdays = List.filter (fun r => is_weekend r =? 0) all_days).
  { unfold weekdays, all_days. rewrite !apply_filters_filter.
    rewrite filter_filter_and. apply List.filter_ext. intros r.
    unfold kept. simpl.
    destruct (is_weekend r =? 0);
      rewrite ?andb_true_r, ?andb_false_r, ?andb_false_l; reflexivity. }
  assert (Hwe : weekends = List.filter (fun r => is_weekend r =? 1) all_days).
  { unfold weekends, all_days. rewrite !apply_filters_filter.
    rewrite filter_filter_and. apply List.filter_ext. intros r.
    unfold kept. simpl.
    destruct (is_weekend r =? 1);
      rewrite ?andb_true_r, ?andb_false_r, ?andb_false_l; reflexivity. }
  assert (Hall : forall r, In r all_days -> is_weekend r = 0 \/ is_weekend r = 1).
  { intros r Hin. apply Hflag. unfold all_days in Hin.
    rewrite apply_filters_filter in Hin. now apply filter_In in Hin. }
  rewrite Hwd, Hwe. split; [|split].
  - intros r. rewrite !filter_In, !Z.eqb_eq. split.
    + intros Hin. destruct (Hall r Hin); [left | right]; auto.
    + intros [[Hin _]|[Hin _]]; exact Hin.
  - intros r. rewrite !filter_In, !Z.eqb_eq. intros [[_ H0] [_ H1]]. lia.
  - apply filter_split_length. intros r Hin.
    destruct (Hall r Hin) as [-> | ->]; reflexivity.
Qed.

End ApplyFiltersProperties.

Lemma apply_filters_inverted_range_witness :
  (snd (f_hour_range inverted_hours) < fst (f_hour_range inverted_hours) \/
   date_leb (f_start_date inverted_hours) (f_end_date inverted_hours) = false) /\
  apply_filters_view sample_views sample_filters <> [] /\
  apply_filters_view sample_views inverted_hours = [].
Proof.
  assert (Hinv : snd (f_hour_range inverted_hours)
                 < fst (f_hour_range inverted_hours) \/
                 date_leb (f_start_date inverted_hours)
                   (f_end_date inverted_hours) = false)
    by (left; simpl; lia).
  split; [exact Hinv|]. split; [discriminate|].
  exact (apply_filters_inverted_range reading_view v_park_name v_date v_hour
           v_ride_name v_is_weekend v_is_open v_wait_time sample_views
           inverted_hours Hinv).
Defined.

Lemma apply_filters_day_split_witness :
  (forall r, In r sample_views -> v_is_weekend r = 0 \/ v_is_weekend r = 1) /\
  length (apply_filters_view sample_views
            (with_day_filter sample_filters "Weekdays Only")) = 1%nat /\
  length (apply_filters_view sample_views
            (with_day_filter sample_filters "Weekends Only")) = 1%nat /\
  length (apply_filters_view sample_views
            (with_day_filter sample_filters "All Days")) =
  (length (apply_filters_view sample_views
             (with_day_filter sample_filters "Weekdays Only")) +
   length (apply_filters_view sample_views
             (with_day_filter sample_filters "Weekends Only")))%nat.
Proof.
  assert (Hflag : forall r, In r sample_views ->
                            v_is_weekend r = 0 \/ v_is_weekend r = 1).
  { intros r Hin. simpl in Hin.
    destruct Hin as [<-|[<-|[<-|[]]]]; simpl; auto. }
  split; [exact Hflag|]. split; [reflexivity|]. split; [reflexivity|].
  exact (proj2 (proj2 (apply_filters_day_split reading_view v_park_name v_date
                         v_hour v_ride_name v_is_weekend v_is_open v_wait_time
                         sample_views sample_filters Hflag))).
Defined.

Lemma filter_key_absent {A} (key : A -> Z) (z : Z) (l : list A) :
  ~ In z (map key l) -> List.filter (fun a => z =? key a) l = [].
Proof.
  intros Hnot. apply filter_none. intros a Hin.
  apply Z.eqb_neq. intros ->. apply Hnot. now apply in_map.
Qed.

Lemma filter_key_unique {A} (key : A -> Z) (z : Z) (l : list A) :
  NoDup (map key l) -> In z (map key l) ->
  exists a, In a l /\ key a = z /\ List.filter (fun a => z =? key a) l = [a].
Proof.
  induction l as [|a l IH]; simpl; intros Hnodup Hin; [destruct Hin|].
  apply NoDup_cons in Hnodup as [Hfresh Hnodup].
  rewrite list_elem_of_In in Hfresh.
  destruct (Z.eqb_spec z (key a)) as [->|Hne].
  - exists a. split; [now left|]. split; [reflexivity|].
    now rewrite (filter_key_absent key (key a) l Hfresh).
  - destruct Hin as [Heq|Hin]; [now destruct Hne|].
    destruct (IH Hnodup Hin) as (b & Hb & Hkey & Hfilter).
    exists b. split; [now right|]. split; [exact Hkey | exact Hfilter].
Qed.

Lemma mem_In (z : Z) (ids : list Z) : mem z ids = true <-> In z ids.
Proof.
  unfold mem. rewrite existsb_exists. split.
  - intros (x & Hx & Heq). apply Z.eqb_eq in Heq. now subst x.
  - intros Hin. exists z. split; [exact Hin | apply Z.eqb_refl].
Qed.

(** A key column that is not NULL and refers to a parent row with unique
    ids joins with exactly that row. *)
Lemma join_parent {A} (key : A -> Z) (v : sqlval) (l : list A) :
  NoDup (map key l) -> is_null v = false ->
  references v (map key l) = true ->
  exists a, In a l /\ List.filter (fun a => key_matches v (key a)) l = [a].
Proof.
  intros Hnodup Hnull Href. destruct v as [|z|t]; try discriminate.
  simpl in Href. apply mem_In in Href.
  destruct (filter_key_unique key z l Hnodup Href) as (a & Hin & _ & Hfilter).
  exists a. split; [exact Hin | exact Hfilter].
Qed.

(** A key column that is NULL joins with no row; one that refers to a
    parent row with unique ids joins with one row. *)
Lemma join_optional_parent {A} (key : A -> Z) (v : sqlval) (l : list A) :
  NoDup (map key l) -> references v (map key l) = true ->
  List.filter (fun a => key_matches v (key a)) l = [] \/
  exists a, List.filter (fun a => key_matches v (key a)) l = [a].
Proof.
  intros Hnodup Href. destruct (is_null v) eqn:Hnull.
  - left. destruct v; try discriminate. now apply filter_none.
  - right. destruct (join_parent key v l Hnodup Hnull Href) as (a & _ & H).
    now exists a.
Qed.

Lemma wait_times_query_rows (db : database) :
  unique_keys db -> foreign_keys_hold db -> not_null_holds db ->
  map j_reading (wait_times_query db) = wait_times db /\
  Forall (fun j =>
            is_null (j_ride_name j) = false /\
            is_null (j_park_name j) = false /\
            exists r p,
              In r (rides db) /\ In p (parks db) /\
              wt_ride_id (j_reading j) = SqlInt (rides_id r) /\
              rides_park_id r = SqlInt (parks_id p) /\
              j_ride_name j = rides_name r /\
              j_park_name j = parks_name p)
    (wait_times_query db).
Proof.
  intros (Hparks & Hlands & Hrides & _) (_ & Hfk_rides & Hfk_wt)
    (Hnn_parks & _ & Hnn_rides & Hnn_wt).
  unfold wait_times_query.
  induction (wait_times db) as [|wt wts IH]; [split; constructor|].
  apply Forall_cons in Hfk_wt as [Hfk Hfk_wt].
  apply Forall_cons in Hnn_wt as [[Hnn _] Hnn_wt].
  destruct (IH Hfk_wt Hnn_wt) as [IHrows IHnames].
  destruct (join_parent rides_id (wt_ride_id wt) (rides db) Hrides Hnn Hfk)
    as (r & Hr & Hjoin_r).
  rewrite Forall_forall in Hfk_rides. rewrite Forall_forall in Hnn_rides.
  rewrite Forall_forall in Hnn_parks.
  rewrite <- list_elem_of_In in Hr.
  destruct (Hfk_rides r Hr) as [Hfk_land Hfk_park].
  destruct (Hnn_rides r Hr) as [Hnn_park Hnn_name].
  destruct (join_parent parks_id (rides_park_id r) (parks db) Hparks Hnn_park
              Hfk_park) as (p & Hp & Hjoin_p).
  rewrite <- list_elem_of_In in Hp.
  assert (Hwt : wt_ride_id wt = SqlInt (rides_id r)).
  { assert (Hin : In r (List.filter
                          (fun r => key_matches (wt_ride_id wt) (rides_id r))
                          (rides db))) by (rewrite Hjoin_r; now left).
    apply filter_In in Hin as [_ Hm].
    destruct (wt_ride_id wt); try discriminate.
    simpl in Hm. apply Z.eqb_eq in Hm. now subst. }
  assert (Hpk : rides_park_id r = SqlInt (parks_id p)).
  { assert (Hin : In p (List.filter
                          (fun p => key_matches (rides_park_id r) (parks_id p))
                          (parks db))) by (rewrite Hjoin_p; now left).
    apply filter_In in Hin as [_ Hm].
    destruct (rides_park_id r); try discriminate.
    simpl in Hm. apply Z.eqb_eq in Hm. now subst. }
  assert (Hrow : forall j,
             j_reading j = wt -> j_ride_name j = rides_name r ->
             j_park_name j = parks_name p ->
             is_null (j_ride_name j) = false /\
             is_null (j_park_name j) = false /\
             exists r p,
               In r (rides db) /\ In p (parks db) /\
               wt_ride_id (j_reading j) = SqlInt (rides_id r) /\
               rides_park_id r = SqlInt (parks_id p) /\
               j_ride_name j = rides_name r /\
               j_park_name j = parks_name p).
  { intros j Hj Hjr Hjp. rewrite Hjr, Hjp, Hj.
    split; [exact Hnn_name|]. split; [apply Hnn_parks, Hp|].
    exists r, p. rewrite <- !list_elem_of_In.
    split; [exact Hr|]. split; [exact Hp|]. split; [exact Hwt|].
    split; [exact Hpk|]. split; reflexivity. }
  cbn [flat_map]. rewrite Hjoin_r. cbn [flat_map]. rewrite Hjoin_p.
  cbn [flat_map]. rewrite !app_nil_r.
  destruct (join_optional_parent lands_id (rides_land_id r) (lands db) Hlands
              Hfk_land) as [-> | [l ->]]; cbn [map app].
  - split; [f_equal; exact IHrows|].
    apply Forall_cons. split; [now apply Hrow | exact IHnames].
  - split; [f_equal; exact IHrows|].
    apply Forall_cons. split; [now apply Hrow | exact IHnames].
Qed.

(** X27: in a database with unique keys, satisfied foreign keys and no NULL
    in a NOT NULL column, the query [load_data] runs for the readings
    returns every reading of [wait_times] exactly once, none dropped by a
    join and none doubled, each with the names of its ride and its park,
    which are not NULL. *)
Theorem dashboard_sees_every_reading (db : database) :
  unique_keys db -> foreign_keys_hold db -> not_null_holds db ->
  Permutation (map j_reading (wait_times_query db)) (wait_times db) /\
  Forall (fun j =>
            is_null (j_ride_name j) = false /\
            is_null (j_park_name j) = false /\
            exists r p,
              In r (rides db) /\ In p (parks db) /\
              wt_ride_id (j_reading j) = SqlInt (rides_id r) /\
              rides_park_id r = SqlInt (parks_id p) /\
              j_ride_name j = rides_name r /\
              j_park_name j = parks_name p)
    (wait_times_query db).
Proof.
  intros Hunique Hforeign Hnotnull.
  destruct (wait_times_query_rows db Hunique Hforeign Hnotnull)
    as [Hrows Hnames].
  split; [now rewrite Hrows | exact Hnames].
Qed.

Lemma dashboard_sees_every_reading_witness :
  exists db',
    insert_wait_time (JInt 1001) (JInt 60) (JBool true) saturday_noon JNull
      database_with_ride = Ok db' /\
    unique_keys db' /\ foreign_keys_hold db' /\ not_null_holds db' /\
    length (wait_times_query db') = 1%nat /\
    Permutation (map j_reading (wait_times_query db')) (wait_times db').
Proof.
  eexists. split; [reflexivity|].
  assert (Hu : unique_keys database_with_ride).
  { repeat split; simpl; repeat constructor; rewrite ?list_elem_of_In;
      simpl; tauto. }
  assert (Hf : foreign_keys_hold database_with_ride)
    by (repeat split; simpl; repeat constructor).
  assert (Hn : not_null_holds database_with_ride)
    by (repeat split; simpl; repeat constructor).
  pose proof (run_call_keeps_keys_unique
                (InsertWaitTime (JInt 1001) (JInt 60) (JBool true)
                   saturday_noon JNull) database_with_ride _ eq_refl Hu) as Hu'.
  pose proof (run_call_keeps_foreign_keys
                (InsertWaitTime (JInt 1001) (JInt 60) (JBool true)
                   saturday_noon JNull) database_with_ride _ eq_refl Hf) as Hf'.
  pose proof (run_call_keeps_not_null
                (InsertWaitTime (JInt 1001) (JInt 60) (JBool true)
                   saturday_noon JNull) database_with_ride _ eq_refl Hn) as Hn'.
  split; [exact Hu'|]. split; [exact Hf'|]. split; [exact Hn'|].
  split; [reflexivity|].
  exact (proj1 (dashboard_sees_every_reading _ Hu' Hf' Hn')).
Defined.
